(** * qualysapi.connector: the request-normalisation engine of [QGConnector]

    A shallow embedding of [qualysapi/connector.py] (Python 2): the methods
    of [QGConnector] become functions over an explicit connection record,
    exceptions become the [Raise] branch of an error monad, and the two
    transports ([requests] and the [curl] subprocess) are oracles whose
    invocations are logged in a trace. *)

From Stdlib Require Import ZArith Ascii.
From stdpp Require Import gmap strings list fin_maps.

Local Open Scope Z_scope.

(** ** Python exceptions and the error monad *)

(** The version values that flow through the connector: [int], [str], and
    the [False] that [which_api_version] returns when nothing matches. *)
Inductive api_version :=
  | VInt (n : Z)
  | VStr (s : string)
  | VFalse.

(** The exceptions the connector can raise.  [UnknownVersion v] is the
    [Exception("Unknown QualysGuard API Version Number (%s)" % v)] of
    [url_api_version]; [HTTPError] is what [raise_for_status] raises. *)
Inductive exn :=
  | IndexError
  | KeyError
  | TypeError
  | ValueError
  | UnknownVersion (v : api_version)
  | HTTPError (status : Z) (body : string).

Inductive result (A : Type) :=
  | Return (a : A)
  | Raise (e : exn).
Arguments Return {A} a.
Arguments Raise {A} e.

(** Sequencing: an exception aborts the rest of the method.  The
    instances give [result] stdpp's [x ← r; k] notation. *)
Definition bind {A B} (k : A → result B) (r : result A) : result B :=
  match r with
  | Return a => k a
  | Raise e => Raise e
  end.

#[global] Instance result_ret : MRet result := @Return.
#[global] Instance result_bind : MBind result := @bind.

(** ** Python [str] primitives used by the connector *)

Module Py.

(** [s.lstrip(c)] for a one-character argument. *)
Fixpoint lstrip (c : ascii) (s : string) : string :=
  match s with
  | String a s' => if Ascii.eqb a c then lstrip c s' else s
  | EmptyString => EmptyString
  end.

(** [s.rstrip(c)] for a one-character argument. *)
Fixpoint rstrip (c : ascii) (s : string) : string :=
  match s with
  | EmptyString => EmptyString
  | String a s' =>
      match rstrip c s' with
      | EmptyString => if Ascii.eqb a c then EmptyString else String a EmptyString
      | r => String a r
      end
  end.

Definition startswith (s pre : string) : bool := String.prefix pre s.

Fixpoint endswith (s suf : string) : bool :=
  String.eqb s suf ||
  match s with
  | String _ s' => endswith s' suf
  | EmptyString => false
  end.

(** [sub in s]. *)
Fixpoint contains (sub s : string) : bool :=
  String.prefix sub s ||
  match s with
  | String _ s' => contains sub s'
  | EmptyString => false
  end.

(** [s[-1]]: raises [IndexError] on the empty string. *)
Fixpoint last_char (s : string) : result ascii :=
  match s with
  | EmptyString => Raise IndexError
  | String a EmptyString => Return a
  | String _ s' => last_char s'
  end.

(** [s[i]] for a non-negative index. *)
Definition index (s : string) (i : nat) : result ascii :=
  match String.get i s with
  | Some a => Return a
  | None => Raise IndexError
  end.

Definition is_upper (a : ascii) : bool :=
  let n := nat_of_ascii a in (65 <=? n)%nat && (n <=? 90)%nat.

Definition lower_char (a : ascii) : ascii :=
  if is_upper a then ascii_of_nat (nat_of_ascii a + 32) else a.

(** [s.lower()] on a byte string. *)
Fixpoint lower (s : string) : string :=
  match s with
  | EmptyString => EmptyString
  | String a s' => String (lower_char a) (lower s')
  end.

(** [c.isdigit()] for one character. *)
Definition isdigit (a : ascii) : bool :=
  let n := nat_of_ascii a in (48 <=? n)%nat && (n <=? 57)%nat.

Definition digit_value (a : ascii) : Z := Z.of_nat (nat_of_ascii a) - 48.

Fixpoint digits (acc : Z) (s : string) : option Z :=
  match s with
  | EmptyString => Some acc
  | String a s' =>
      if isdigit a then digits (10 * acc + digit_value a) s' else None
  end.

Fixpoint lstrip_space (s : string) : string :=
  match s with
  | String a s' => if Ascii.is_space a then lstrip_space s' else s
  | EmptyString => EmptyString
  end.

Fixpoint rstrip_space (s : string) : string :=
  match s with
  | EmptyString => EmptyString
  | String a s' =>
      match rstrip_space s' with
      | EmptyString => if Ascii.is_space a then EmptyString else String a EmptyString
      | r => String a r
      end
  end.

Definition strip_space (s : string) : string := rstrip_space (lstrip_space s).

(** [int(s)] for a [str] argument (base 10): surrounding whitespace is
    ignored, one sign is allowed, and at least one digit is required;
    anything else is a [ValueError]. *)
Definition int (s : string) : result Z :=
  let t := strip_space s in
  let '(sign, body) :=
    match t with
    | String a r =>
        if Ascii.eqb a "-" then (-1, r)
        else if Ascii.eqb a "+" then (1, r)
        else (1, t)
    | EmptyString => (1, t)
    end in
  match body with
  | EmptyString => Raise ValueError
  | _ => match digits 0 body with
         | Some n => Return (sign * n)
         | None => Raise ValueError
         end
  end.

(** [s.replace(a, b)] for one-character arguments. *)
Fixpoint replace (a b : ascii) (s : string) : string :=
  match s with
  | EmptyString => EmptyString
  | String c s' => String (if Ascii.eqb c a then b else c) (replace a b s')
  end.

(** [s.split(c)] for a one-character separator: never the empty list. *)
Fixpoint split (c : ascii) (s : string) : list string :=
  match s with
  | EmptyString => [EmptyString]
  | String a s' =>
      if Ascii.eqb a c then EmptyString :: split c s'
      else match split c s' with
           | w :: ws => String a w :: ws
           | [] => [String a EmptyString]
           end
  end.

(** [s.split(c, 1)]: [None] when [c] does not occur (a one-element list
    in Python), otherwise the parts before and after its first
    occurrence. *)
Fixpoint split1 (c : ascii) (s : string) : option (string * string) :=
  match s with
  | EmptyString => None
  | String a s' =>
      if Ascii.eqb a c then Some (EmptyString, s')
      else '(l, r) ← split1 c s'; Some (String a l, r)
  end.

(** [s[1:]]. *)
Definition slice1 (s : string) : string :=
  match s with
  | String _ s' => s'
  | EmptyString => EmptyString
  end.

(** Truth value of a [str]. *)
Definition truthy_str (s : string) : bool :=
  match s with EmptyString => false | _ => true end.

End Py.

(** ** The API version of a call *)

(** [x in (s1, ..., sn)] on strings. *)
Definition in_tuple (x : string) (t : list string) : bool :=
  existsb (String.eqb x) t.

(** The [api_version] argument of [request] when it is given: a [str] or
    an [int]. *)
Inductive hint :=
  | HStr (s : string)
  | HInt (n : Z).

Definition hint_truthy (h : option hint) : bool :=
  match h with
  | None => false
  | Some (HStr s) => Py.truthy_str s
  | Some (HInt n) => negb (n =? 0)
  end.

(** The test [api_version[0] == 'v' and api_version[1].isdigit()] and the
    assignment it guards; [and] evaluates [api_version[1]] only when the
    first character is [v]. *)
Definition strip_v (s : string) : result string :=
  c0 ← Py.index s 0;
  if Ascii.eqb c0 "v"
  then c1 ← Py.index s 1; Return (if Py.isdigit c1 then Py.slice1 s else s)
  else Return s.

Definition format_api_version (h : hint) : result api_version :=
  match h with
  | HStr s =>
      s ← strip_v (Py.lower s);
      if in_tuple s ["asset management"; "assets"; "tag"; "tagging"; "tags"]
      then Return (VStr "am")
      else if in_tuple s ["webapp"; "web application scanning"; "webapp scanning"]
      then Return (VStr "was")
      else if in_tuple s ["pol"; "pc"]
      then Return (VInt 2)
      else n ← Py.int s; Return (VInt n)
  | HInt n => Return (VInt n)
  end.

Definition which_api_version (api_call : string) : api_version :=
  if Py.endswith api_call ".php" then VInt 1
  else if Py.startswith api_call "api/2.0/" then VInt 2
  else if Py.contains "/am/" api_call then VStr "am"
  else if Py.contains "/was/" api_call then VStr "was"
  else VFalse.

(** [v == w] between version values.  In Python [False == 0] holds, while
    [False] equals neither [1], [2] nor any string. *)
Definition version_eqb (v w : api_version) : bool :=
  match v, w with
  | VInt a, VInt b => a =? b
  | VStr a, VStr b => String.eqb a b
  | VFalse, VFalse => true
  | VFalse, VInt b => b =? 0
  | VInt a, VFalse => a =? 0
  | _, _ => false
  end.

Definition url_api_version (server : string) (v : api_version) : result string :=
  if version_eqb v (VInt 1) then Return ("https://" +:+ server +:+ "/msp/")
  else if version_eqb v (VInt 2) then Return ("https://" +:+ server +:+ "/")
  else if version_eqb v (VStr "was")
  then Return ("https://" +:+ server +:+ "/qps/rest/3.0/")
  else if version_eqb v (VStr "am")
  then Return ("https://" +:+ server +:+ "/qps/rest/1.0/")
  else Raise (UnknownVersion v).

(** ** Payloads, the method registry and the connection *)

(** [lxml.etree] is an external library: an element type, its
    serialisation [lxml.etree.tostring], and the truth value of an element
    (lxml: an element is true when it has children). *)
Class Lxml := {
  element : Type;
  tostring : element → string;
  element_bool : element → bool;
}.

(** A value stored in a payload [dict]: a [str], or the [list] of [str]
    that [urlparse.parse_qs] produces. *)
Inductive dict_value :=
  | DStr (s : string)
  | DList (l : list string).

(** The [data] argument of [request] when it is not [None]. *)
Inductive payload `{Lxml} :=
  | PStr (s : string)
  | PDict (d : gmap string dict_value)
  | PXml (x : element).

(** Truth value of [data] ([not data], [if data:]). *)
Definition data_truthy `{Lxml} (data : option payload) : bool :=
  match data with
  | None => false
  | Some (PStr s) => Py.truthy_str s
  | Some (PDict d) => negb (bool_decide (d = ∅))
  | Some (PXml x) => element_bool x
  end.

(** The state of a [QGConnector].  The two tables come from
    [qualysapi.api_methods], which is not part of these sources; they are
    taken as fields: [api_methods k] is the set [api_methods[k]], and
    [api_methods_with_trailing_slash v] is the set stored under version
    [v]. *)
Record QGConnector := {
  auth : string * string;
  server : string;
  rate_limit_remaining : gmap string Z;
  api_methods : string → gset string;
  api_methods_with_trailing_slash : api_version → gset string;
  proxies : option (gmap string string);
  curl_path : option string;
  curl_use_subprocess : bool;
}.

(** [QGConnector.__init__]: the subprocess transport is selected only when
    a [curl_path] is given. *)
Definition init (username password server : string)
    (methods : string → gset string) (slashes : api_version → gset string)
    (proxies : option (gmap string string)) (curl_path : option string)
    (use_subprocess : bool) : QGConnector :=
  {| auth := (username, password);
     server := server;
     rate_limit_remaining := ∅;
     api_methods := methods;
     api_methods_with_trailing_slash := slashes;
     proxies := proxies;
     curl_path := curl_path;
     curl_use_subprocess :=
       match curl_path with
       | Some p => Py.truthy_str p && use_subprocess
       | None => false
       end |}.

(** ** Verb selection *)

Definition format_http_method `{Lxml} (self : QGConnector) (v : api_version)
    (api_call : string) (data : option payload) : string :=
  if version_eqb v (VInt 2) then "post"
  else if version_eqb v (VInt 1) then
    if bool_decide (api_call ∈ api_methods self "1 post") then "post" else "get"
  else if version_eqb v (VStr "was") then
    if bool_decide (api_call ∈ api_methods self "was get") then "get"
    else if negb (data_truthy data) then
      if bool_decide (api_call ∈ api_methods self "was no data get")
      then "get" else "post"
    else "post"
  else
    if bool_decide (api_call ∈ api_methods self "am get") then "get" else "post".

(** ** Call normalisation *)

Definition preformat_call (api_call : string) : string :=
  Py.rstrip "?" (Py.lstrip "/" api_call).

Definition format_call (self : QGConnector) (v : api_version)
    (api_call : string) : result string :=
  let api_call := Py.lstrip "/" api_call in
  let api_call := Py.rstrip "?" api_call in
  api_call ←
    (if version_eqb v (VInt 2)
     then c ← Py.last_char api_call;
          Return (if Ascii.eqb c "/" then api_call else api_call +:+ "/")
     else Return api_call);
  Return (if bool_decide (api_call ∈ api_methods_with_trailing_slash self v)
          then api_call +:+ "/" else api_call).

(** ** Payload transcoding *)

Module Urlparse.

Definition hexval (a : ascii) : option nat :=
  let n := nat_of_ascii a in
  if Py.isdigit a then Some (n - 48)%nat
  else if (65 <=? n)%nat && (n <=? 70)%nat then Some (n - 55)%nat
  else if (97 <=? n)%nat && (n <=? 102)%nat then Some (n - 87)%nat
  else None.

(** [urlparse.unquote]: every [%XX] with two hexadecimal digits is
    replaced by the byte it denotes; any other [%] is kept. *)
Fixpoint unquote (s : string) : string :=
  match s with
  | EmptyString => EmptyString
  | String c s1 =>
      if Ascii.eqb c "%" then
        match s1 with
        | String h (String l r) =>
            match hexval h, hexval l with
            | Some a, Some b =>
                String (ascii_of_nat (16 * a + b)) (unquote r)
            | _, _ => String c (unquote s1)
            end
        | _ => String c (unquote s1)
        end
      else String c (unquote s1)
  end.

(** [urlparse.parse_qsl(qs)] with its defaults
    ([keep_blank_values=0], [strict_parsing=0]). *)
Definition parse_qsl (qs : string) : list (string * string) :=
  let pairs := s1 ← Py.split "&" qs; Py.split ";" s1 in
  name_value ← pairs;
  if negb (Py.truthy_str name_value) then []
  else match Py.split1 "=" name_value with
       | None => []
       | Some (n, v) =>
           if Py.truthy_str v
           then [(unquote (Py.replace "+" " " n),
                  unquote (Py.replace "+" " " v))]
           else []
       end.

(** One iteration of the loop of [urlparse.parse_qs]. *)
Definition add_pair (d : gmap string (list string)) (nv : string * string)
    : gmap string (list string) :=
  match d !! nv.1 with
  | Some vs => <[nv.1 := vs ++ [nv.2]]> d
  | None => <[nv.1 := [nv.2]]> d
  end.

Definition parse_qs (qs : string) : gmap string (list string) :=
  foldl add_pair ∅ (parse_qsl qs).

End Urlparse.

Definition in_versions (v : api_version) (t : list api_version) : bool :=
  existsb (version_eqb v) t.

Definition format_payload `{Lxml} (v : api_version) (data : payload) : payload :=
  if in_versions v [VInt 1; VInt 2] then
    match data with
    | PStr s =>
        let s := Py.lstrip "?" s in
        let s := Py.rstrip "&" s in
        PDict (DList <$> Urlparse.parse_qs s)
    | _ => data
    end
  else if in_versions v [VStr "am"; VStr "was"] then
    match data with
    | PXml x => PStr (tostring x)
    | _ => data
    end
  else data.

(** ** Transports *)

(** A value of a response header: text, or an object that [int()] rejects
    with [TypeError]. *)
Inductive header_value :=
  | HText (s : string)
  | HOther.

(** What the connector reads of a [requests] response.  Header names are
    case-insensitive in [requests]; they are keyed here in lower case. *)
Record response := {
  status_code : Z;
  headers : gmap string header_value;
  content : string;
}.

(** The arguments of [requests.get] ([data] goes to [params=]) and of
    [requests.post] ([data] goes to [data=]). *)
Record http_call `{Lxml} := {
  hc_url : string;
  hc_data : option payload;
  hc_auth : string * string;
  hc_headers : gmap string string;
  hc_proxies : option (gmap string string);
}.

Inductive event `{Lxml} :=
  | EvGet (c : http_call)
  | EvPost (c : http_call)
  | EvCurl (args : list string).

(** The outside world: the [requests] library and [subprocess.call], which
    returns the exit status of the process. *)
Record Transport `{Lxml} := {
  requests_get : http_call → response;
  requests_post : http_call → response;
  subprocess_call : list string → Z;
}.

(** What [request] returns: [request.content], or under the subprocess
    transport the value of [subprocess.call]. *)
Inductive retval :=
  | Content (s : string)
  | ExitStatus (n : Z).

(** One execution of [request]: how it ended, the connector afterwards and
    the transport invocations it made, in order. *)
Record run `{Lxml} := {
  outcome : result retval;
  self_after : QGConnector;
  trace : list event;
}.

(** ** Rate-limit tracking *)

(** [self.rate_limit_remaining] is a [defaultdict(int)]: subscripting a
    missing key stores and returns [int()], that is [0]. *)
Definition rate_limit_getitem (m : gmap string Z) (k : string)
    : Z * gmap string Z :=
  match m !! k with
  | Some n => (n, m)
  | None => (0, <[k := 0]> m)
  end.

(** [m.get(k)], which does not touch the mapping. *)
Definition rate_limit_get (m : gmap string Z) (k : string) : option Z := m !! k.

Definition set_rate_limit (self : QGConnector) (m : gmap string Z) : QGConnector :=
  {| auth := auth self;
     server := server self;
     rate_limit_remaining := m;
     api_methods := api_methods self;
     api_methods_with_trailing_slash := api_methods_with_trailing_slash self;
     proxies := proxies self;
     curl_path := curl_path self;
     curl_use_subprocess := curl_use_subprocess self |}.

(** [request.headers[name]]. *)
Definition header_getitem (r : response) (name : string) : result header_value :=
  match headers r !! name with
  | Some v => Return v
  | None => Raise KeyError
  end.

(** [int(x)] on a header value. *)
Definition int_of_header (v : header_value) : result Z :=
  match v with
  | HText s => Py.int s
  | HOther => Raise TypeError
  end.

(** The [try] block of [request] with its two handlers: [KeyError] and
    [TypeError] are swallowed, every other exception propagates. *)
Definition record_rate_limit (m : gmap string Z) (api_call : string)
    (r : response) : result (gmap string Z) :=
  match (v ← header_getitem r "x-ratelimit-remaining";
         n ← int_of_header v;
         Return (<[api_call := n]> m)) with
  | Raise KeyError => Return m
  | Raise TypeError => Return m
  | other => other
  end.

(** [request.raise_for_status()]: client and server error statuses raise. *)
Definition raise_for_status (r : response) : result unit :=
  if (400 <=? status_code r) && (status_code r <? 600)
  then Raise (HTTPError (status_code r) (content r))
  else Return ().

(** ** The subprocess transport: assembling the [curl] command line *)

Module Urllib.

Definition always_safe (a : ascii) : bool :=
  let n := nat_of_ascii a in
  Py.isdigit a || Py.is_upper a || ((97 <=? n)%nat && (n <=? 122)%nat)
  || Ascii.eqb a "_" || Ascii.eqb a "." || Ascii.eqb a "-".

Definition hexdigit (n : nat) : ascii :=
  if (n <? 10)%nat then ascii_of_nat (48 + n) else ascii_of_nat (55 + n).

(** [urllib.quote_plus(s)]: letters, digits and [_.-] are kept, a space
    becomes [+], every other byte becomes [%XX]. *)
Fixpoint quote_plus (s : string) : string :=
  match s with
  | EmptyString => EmptyString
  | String a s' =>
      if always_safe a then String a (quote_plus s')
      else if Ascii.eqb a " " then String "+" (quote_plus s')
      else let n := nat_of_ascii a in
           String "%" (String (hexdigit (n / 16)) (String (hexdigit (n mod 16))
             (quote_plus s')))
  end.

Fixpoint join (sep : string) (l : list string) : string :=
  match l with
  | [] => EmptyString
  | [x] => x
  | x :: l' => x +:+ sep +:+ join sep l'
  end.

(** [urllib.urlencode(d)] on a [dict] of [str]; the order of the pairs is
    the iteration order of the [dict]. *)
Definition urlencode (d : gmap string string) : string :=
  join "&" ((λ kv, quote_plus kv.1 +:+ "=" +:+ quote_plus kv.2) <$> map_to_list d).

End Urllib.

#[global] Instance dict_value_eq_dec : EqDecision dict_value.
Proof. solve_decision. Defined.

(** [l.insert(i, x)]. *)
Definition py_insert {A} (i : nat) (x : A) (l : list A) : list A :=
  take i l ++ x :: drop i l.

(** [for i in items: curl_call.insert(len(curl_call)-1, i)]. *)
Definition curl_insert (curl_call items : list string) : list string :=
  foldl (λ c i, py_insert (length c - 1) i c) curl_call items.

(** The loop [data[i] = data[i][0]] over the [list] values of [data]:
    an empty list raises [IndexError]. *)
Definition first_value (v : dict_value) : string :=
  match v with
  | DStr s => s
  | DList l => default "" (head l)
  end.

Definition first_values (d : gmap string dict_value) : result (gmap string string) :=
  if bool_decide (map_Forall (λ _ v, v ≠ DList []) d)
  then Return (first_value <$> d)
  else Raise IndexError.

(** The argument of [-d]; an element cannot be passed to a process, so
    [subprocess.call] raises [TypeError] before anything is run. *)
Definition curl_data `{Lxml} (data : payload) : result string :=
  match data with
  | PStr s => Return s
  | PDict d => d ← first_values d; Return (Urllib.urlencode d)
  | PXml _ => Raise TypeError
  end.

(** [self.proxies['https']]. *)
Definition proxies_https (p : gmap string string) : result string :=
  match p !! "https" with
  | Some x => Return x
  | None => Raise KeyError
  end.

Definition proxies_truthy (p : option (gmap string string)) : bool :=
  match p with
  | Some m => negb (bool_decide (m = ∅))
  | None => false
  end.

Definition curl_command `{Lxml} (self : QGConnector) (url : string)
    (hdrs : gmap string string) (data : option payload) : result (list string) :=
  let curl_call := ["curl"; "-k"; "-u"; (auth self).1 +:+ ":" +:+ (auth self).2; url] in
  let curl_call :=
    foldl (λ c h, curl_insert c ["-H"; h.1 +:+ ": " +:+ h.2]) curl_call
          (map_to_list hdrs) in
  curl_call ←
    (if data_truthy data
     then match data with
          | Some d => s ← curl_data d; Return (curl_insert curl_call ["-d"; s])
          | None => Return curl_call
          end
     else Return curl_call);
  if proxies_truthy (proxies self)
  then p ← proxies_https (default ∅ (proxies self));
       Return (curl_insert curl_call ["--proxy"; p])
  else Return curl_call.

(** ** The request orchestrator *)

Section Request.

Context `{Lxml}.

(** [qualysapi.version.__version__], from a module outside these
    sources. *)
Variable version : string.

(** What [request] has computed when it reaches the transport. *)
Record prepared := {
  p_version : api_version;
  p_url : string;
  p_headers : gmap string string;
  p_method : string;
  p_call : string;
  p_data : option payload;
}.

Definition request_headers (v : api_version) : gmap string string :=
  let headers : gmap string string :=
    {[ "X-Requested-With" := "Parag Baxi QualysAPI (python) v" +:+ version ]} in
  if in_versions v [VStr "am"; VStr "was"]
  then <["Content-type" := "text/xml"]> headers
  else headers.

Definition method_truthy (m : option string) : bool :=
  match m with
  | Some s => Py.truthy_str s
  | None => false
  end.

(** [request] up to the choice of transport. *)
Definition prepare (self : QGConnector) (api_call : string)
    (data : option payload) (api_version : option hint)
    (http_method : option string) : result prepared :=
  let api_call := preformat_call api_call in
  v ← (if hint_truthy api_version
       then match api_version with
            | Some h => format_api_version h
            | None => Return VFalse
            end
       else Return (which_api_version api_call));
  url ← url_api_version (server self) v;
  let headers := request_headers v in
  let http_method :=
    if method_truthy http_method then default "" http_method
    else format_http_method self v api_call data in
  api_call ← format_call self v api_call;
  let url := url +:+ api_call in
  let data := format_payload v <$> data in
  Return {| p_version := v; p_url := url; p_headers := headers;
            p_method := http_method; p_call := api_call; p_data := data |}.

Variable net : Transport.

(** The branch [if self.curl_use_subprocess:]. *)
Definition request_subprocess (self : QGConnector) (p : prepared) : run :=
  match curl_command self (p_url p) (p_headers p) (p_data p) with
  | Raise e => {| outcome := Raise e; self_after := self; trace := [] |}
  | Return curl_call =>
      {| outcome := Return (ExitStatus (subprocess_call net curl_call));
         self_after := self;
         trace := [EvCurl curl_call] |}
  end.

(** The [else] branch: [requests.get] or [requests.post], then the
    rate-limit bookkeeping, then [raise_for_status]. *)
Definition request_direct (self : QGConnector) (p : prepared) : run :=
  let c := {| hc_url := p_url p; hc_data := p_data p; hc_auth := auth self;
              hc_headers := p_headers p; hc_proxies := proxies self |} in
  let '(r, ev) :=
    if String.eqb (p_method p) "get"
    then (requests_get net c, EvGet c)
    else (requests_post net c, EvPost c) in
  match record_rate_limit (rate_limit_remaining self) (p_call p) r with
  | Raise e => {| outcome := Raise e; self_after := self; trace := [ev] |}
  | Return m =>
      {| outcome := (_ ← raise_for_status r; Return (Content (content r)));
         self_after := set_rate_limit self m;
         trace := [ev] |}
  end.

Definition request (self : QGConnector) (api_call : string)
    (data : option payload) (api_version : option hint)
    (http_method : option string) : run :=
  match prepare self api_call data api_version http_method with
  | Raise e => {| outcome := Raise e; self_after := self; trace := [] |}
  | Return p =>
      if curl_use_subprocess self
      then request_subprocess self p
      else request_direct self p
  end.

End Request.

(** ** Vocabulary of the specification *)

(** The four API generations and the version value that stands for each
    in the connector. *)
Inductive generation := GenV1 | GenV2 | GenAssetMgmt | GenWebApp.

#[global] Instance generation_eq_dec : EqDecision generation.
Proof. solve_decision. Defined.

Definition tag (g : generation) : api_version :=
  match g with
  | GenV1 => VInt 1
  | GenV2 => VInt 2
  | GenAssetMgmt => VStr "am"
  | GenWebApp => VStr "was"
  end.

(** The error taxonomy of the specification, and the exception of the
    connector that realises each entry: [int()] failing on a version hint
    is [UnrecognizedVersion], the exception of [url_api_version] is
    [UnknownGeneration], the error of [raise_for_status] is
    [RemoteRequestError].  [IndexError], [KeyError] and [TypeError] are
    outside the taxonomy, and no exception of the connector stands for
    [UnclassifiableEndpoint]. *)
Inductive spec_error :=
  | UnrecognizedVersion
  | UnclassifiableEndpoint
  | UnknownGeneration
  | RemoteRequestError (status : Z) (body : string).

Definition taxonomy (e : exn) : option spec_error :=
  match e with
  | ValueError => Some UnrecognizedVersion
  | UnknownVersion _ => Some UnknownGeneration
  | HTTPError st b => Some (RemoteRequestError st b)
  | IndexError | KeyError | TypeError => None
  end.

(** Shapes of strings, stated by decomposition. *)
Definition ends_with (s suf : string) : Prop := ∃ p, s = p +:+ suf.
Definition starts_with (s pre : string) : Prop := ∃ q, s = pre +:+ q.
Definition has_substring (s sub : string) : Prop := ∃ p q, s = p +:+ sub +:+ q.

(** [n] copies of one character. *)
Fixpoint repeat_char (c : ascii) (n : nat) : string :=
  match n with
  | O => EmptyString
  | S n' => String c (repeat_char c n')
  end.

(** No inference pattern of [which_api_version] applies. *)
Definition unmatched (api_call : string) : Prop :=
  ¬ ends_with api_call ".php" ∧ ¬ starts_with api_call "api/2.0/" ∧
  ¬ has_substring api_call "/am/" ∧ ¬ has_substring api_call "/was/".

Fixpoint all_chars (P : ascii → bool) (s : string) : bool :=
  match s with
  | EmptyString => true
  | String a s' => P a && all_chars P s'
  end.

(** A non-empty string of decimal digits, and the number it writes. *)
Definition digit_string (s : string) : Prop :=
  s ≠ EmptyString ∧ all_chars Py.isdigit s = true.

Fixpoint decimal (acc : Z) (s : string) : Z :=
  match s with
  | EmptyString => acc
  | String a s' => decimal (10 * acc + Py.digit_value a) s'
  end.

(** A decimal numeral as [int()] reads it: optional whitespace, an
    optional sign, a digit string, optional whitespace. *)
Definition numeral (s : string) : Prop :=
  ∃ l sg ds r,
    s = l +:+ sg +:+ ds +:+ r ∧
    all_chars Ascii.is_space l = true ∧ all_chars Ascii.is_space r = true ∧
    (sg = "" ∨ sg = "+" ∨ sg = "-") ∧ digit_string ds.

Definition am_synonyms : list string :=
  ["asset management"; "assets"; "tag"; "tagging"; "tags"].
Definition was_synonyms : list string :=
  ["webapp"; "web application scanning"; "webapp scanning"].
Definition pc_synonyms : list string := ["pol"; "pc"].

(** The hint after case folding and after dropping a leading [v] that a
    digit follows. *)
Definition folded_hint (h : string) : string :=
  match Py.lower h with
  | String a (String d r) =>
      if Ascii.eqb a "v" && Py.isdigit d then String d r else Py.lower h
  | s => s
  end.

(** ** A sample connection *)

(** A childless element that serialises to an empty tag. *)
Inductive sample_element := Leaf (name : string).

#[global] Instance sample_lxml : Lxml := {|
  element := sample_element;
  tostring x := match x with Leaf n => "<" +:+ n +:+ "/>" end;
  element_bool x := false;
|}.

Definition sample_methods (k : string) : gset string :=
  if String.eqb k "1 post" then {[ "scan.php" ]}
  else if String.eqb k "was get" then {[ "count/was/webapp" ]}
  else if String.eqb k "was no data get" then {[ "search/was/webapp" ]}
  else if String.eqb k "am get" then {[ "count/am/tag" ]}
  else ∅.

Definition sample_conn : QGConnector :=
  init "alice" "secret" "qualysapi.qualys.com" sample_methods (λ _, ∅)
       None None false.

(** A transport that answers every call with the same response, and whose
    [curl] process exits with status 0. *)
Definition fixed_transport (r : response) : Transport :=
  {| requests_get _ := r; requests_post _ := r; subprocess_call _ := 0 |}.

Definition ok_response : response :=
  {| status_code := 200;
     headers := {[ "x-ratelimit-remaining" := HText "42" ]};
     content := "<ok/>" |}.


(** A response whose rate-limit header is not a number, with a success
    status and with a failing one. *)
Definition garbled_response : response :=
  {| status_code := 200;
     headers := {[ "x-ratelimit-remaining" := HText "n/a" ]};
     content := "<ok/>" |}.

Definition failing_garbled_response : response :=
  {| status_code := 503;
     headers := {[ "x-ratelimit-remaining" := HText "n/a" ]};
     content := "<unavailable/>" |}.


(** The values that a list of pairs gives for one name, in order. *)
Definition values_of (k : string) (l : list (string * string)) : list string :=
  (filter (λ nv, nv.1 = k) l).*2.

(** Transcoding of a query string as the specification words it: one
    leading [?] is dropped, then the trailing [&] characters, then the
    rest is parsed. *)
Definition strip_one_leading (c : ascii) (s : string) : string :=
  match s with
  | String a s' => if Ascii.eqb a c then s' else s
  | EmptyString => EmptyString
  end.

Definition transcode_one_leading (s : string) : gmap string (list string) :=
  Urlparse.parse_qs (Py.rstrip "&" (strip_one_leading "?" s)).


(** A connection whose trailing-slash table for version 2 holds an entry
    that itself ends in a slash. *)
Definition slashed_conn : QGConnector :=
  init "alice" "secret" "qualysapi.qualys.com" sample_methods
       (λ v, if version_eqb v (VInt 2) then {[ "api/2.0/fo/asset/" ]} else ∅)
       None None false.


(** ** Observing the two transports *)

Definition set_curl_use_subprocess (b : bool) (self : QGConnector) : QGConnector :=
  {| auth := auth self;
     server := server self;
     rate_limit_remaining := rate_limit_remaining self;
     api_methods := api_methods self;
     api_methods_with_trailing_slash := api_methods_with_trailing_slash self;
     proxies := proxies self;
     curl_path := curl_path self;
     curl_use_subprocess := b |}.

(** How [curl] reads the command line that [request] assembles: [-k] is a
    switch, [-u], [-H], [-d] and [--proxy] take the next argument, and
    anything else is a URL. *)
Record curl_invocation := {
  cu_insecure : bool;
  cu_user : list string;
  cu_headers : list string;
  cu_data : list string;
  cu_proxy : list string;
  cu_urls : list string;
}.

Definition curl_empty : curl_invocation :=
  {| cu_insecure := false; cu_user := []; cu_headers := []; cu_data := [];
     cu_proxy := []; cu_urls := [] |}.

Definition takes_value (a : string) : bool :=
  in_tuple a ["-u"; "-H"; "-d"; "--proxy"].

Definition curl_option (flag value : string) (i : curl_invocation)
    : curl_invocation :=
  {| cu_insecure := cu_insecure i;
     cu_user := if String.eqb flag "-u" then value :: cu_user i else cu_user i;
     cu_headers := if String.eqb flag "-H" then value :: cu_headers i else cu_headers i;
     cu_data := if String.eqb flag "-d" then value :: cu_data i else cu_data i;
     cu_proxy := if String.eqb flag "--proxy" then value :: cu_proxy i else cu_proxy i;
     cu_urls := cu_urls i |}.

Definition curl_switch (i : curl_invocation) : curl_invocation :=
  {| cu_insecure := true; cu_user := cu_user i; cu_headers := cu_headers i;
     cu_data := cu_data i; cu_proxy := cu_proxy i; cu_urls := cu_urls i |}.

Definition curl_url (u : string) (i : curl_invocation) : curl_invocation :=
  {| cu_insecure := cu_insecure i; cu_user := cu_user i;
     cu_headers := cu_headers i; cu_data := cu_data i; cu_proxy := cu_proxy i;
     cu_urls := u :: cu_urls i |}.

Fixpoint curl_parse (args : list string) : curl_invocation :=
  match args with
  | [] => curl_empty
  | a :: rest =>
      if String.eqb a "-k" then curl_switch (curl_parse rest)
      else if takes_value a then
        match rest with
        | v :: rest' => curl_option a v (curl_parse rest')
        | [] => curl_empty
        end
      else curl_url a (curl_parse rest)
  end.

(** The header lines that [-H] carries for a header mapping. *)
Definition header_lines (hdrs : gmap string string) : list string :=
  (λ h, h.1 +:+ ": " +:+ h.2) <$> map_to_list hdrs.

(** The names and values that [requests] sends for a payload mapping:
    a [str] value once, a [list] value once per element, in order. *)
Definition sent_values (d : gmap string dict_value) : gmap string (list string) :=
  (λ v, match v with DStr s => [s] | DList l => l end) <$> d.

(** A connection that uses the subprocess transport. *)
Definition curl_conn : QGConnector :=
  init "alice" "secret" "qualysapi.qualys.com" sample_methods (λ _, ∅)
       None (Some "/usr/bin/curl") true.


(** The arguments that pass the values [vs] to the option [flag]. *)
Definition curl_opts (flag : string) (vs : list string) : list string :=
  vs ≫= λ v, [flag; v].


(** What [request] has prepared for the call [asset_search.php] with the
    payload [?ids=1&ids=2&]. *)
Definition sample_prepared : prepared :=
  {| p_version := VInt 1;
     p_url := "https://qualysapi.qualys.com/msp/asset_search.php";
     p_headers := {[ "X-Requested-With" := "Parag Baxi QualysAPI (python) v4.1.0" ]};
     p_method := "get";
     p_call := "asset_search.php";
     p_data := Some (PDict {[ "ids" := DList ["1"; "2"] ]}) |}.


(** ** Names used by the further properties *)

(** The path that [url_api_version] puts after the server for each
    version it knows. *)
Definition base_path (g : generation) : string :=
  match g with
  | GenV1 => "/msp/"
  | GenV2 => "/"
  | GenWebApp => "/qps/rest/3.0/"
  | GenAssetMgmt => "/qps/rest/1.0/"
  end.

(** What [qualysapi.util.connect] reads of a [QualysConnectConfig], a
    class of [qualysapi.config], which is not part of these sources, and
    the two tables of [qualysapi.api_methods]. *)
Record QualysConnectConfig := {
  get_username : string;
  get_password : string;
  get_hostname : string;
  conf_proxies : option (gmap string string);
  conf_curl_path : option string;
  conf_curl_use_subprocess : bool;
  conf_api_methods : string → gset string;
  conf_api_methods_with_trailing_slash : api_version → gset string;
}.

(** [qualysapi.util.connect]: the connector built from the settings. *)
Definition connect (conf : QualysConnectConfig) : QGConnector :=
  init (get_username conf) (get_password conf) (get_hostname conf)
       (conf_api_methods conf) (conf_api_methods_with_trailing_slash conf)
       (conf_proxies conf) (conf_curl_path conf) (conf_curl_use_subprocess conf).


(** The character [c] does not occur in [s]. *)
Definition lacks (c : ascii) (s : string) : Prop :=
  all_chars (λ a, negb (Ascii.eqb a c)) s = true.


(** The response that a transport event received; the subprocess
    transport hands no response to the connector. *)
Definition event_response `{Lxml} (net : Transport) (ev : event) : option response :=
  match ev with
  | EvGet c => Some (requests_get net c)
  | EvPost c => Some (requests_post net c)
  | EvCurl _ => None
  end.

(** The status is one for which [raise_for_status] raises. *)
Definition failing_status (r : response) : Prop :=
  400 ≤ status_code r < 600.


(** The version that [request] resolves from the hint or from the call. *)
Definition resolved_version (api_call : string) (h : option hint)
    : result api_version :=
  if hint_truthy h
  then match h with
       | Some x => format_api_version x
       | None => Return VFalse
       end
  else Return (which_api_version (preformat_call api_call)).

(** Settings without a [curl] path that ask for the subprocess. *)
Definition sample_conf : QualysConnectConfig :=
  {| get_username := "alice";
     get_password := "secret";
     get_hostname := "qualysapi.qualys.com";
     conf_proxies := None;
     conf_curl_path := None;
     conf_curl_use_subprocess := true;
     conf_api_methods := sample_methods;
     conf_api_methods_with_trailing_slash := λ _, ∅ |}.

(** A connection behind a proxy table that has no [https] entry. *)
Definition http_proxy_conn : QGConnector :=
  init "alice" "secret" "qualysapi.qualys.com" sample_methods (λ _, ∅)
       (Some {[ "http" := "http://proxy:3128" ]}) (Some "/usr/bin/curl") true.


(** * Properties *)

(** ** Strings *)

Lemma str_app_nil_l (s : string) : "" +:+ s = s.
Proof. reflexivity. Qed.

Lemma str_app_cons (a : ascii) (s t : string) :
  String a s +:+ t = String a (s +:+ t).
Proof. reflexivity. Qed.

Lemma str_app_nil_r (s : string) : s +:+ "" = s.
Proof. induction s as [|a s IH]; [done|]. by rewrite str_app_cons, IH. Qed.

Lemma str_app_assoc (s t u : string) : (s +:+ t) +:+ u = s +:+ t +:+ u.
Proof. induction s as [|a s IH]; [done|]. by rewrite !str_app_cons, IH. Qed.

Lemma str_app_eq_nil (s t : string) : s +:+ t = "" → s = "" ∧ t = "".
Proof. destruct s; [done|]. by rewrite str_app_cons. Qed.

Lemma ascii_eqb_true (a b : ascii) : Ascii.eqb a b = true ↔ a = b.
Proof. apply Ascii.eqb_eq. Qed.

Lemma ascii_eqb_false (a b : ascii) : Ascii.eqb a b = false ↔ a ≠ b.
Proof. apply Ascii.eqb_neq. Qed.

Lemma prefix_starts_with (pre s : string) :
  String.prefix pre s = true ↔ starts_with s pre.
Proof.
  revert s. induction pre as [|a pre IH]; intros s.
  - split; [|by destruct s]. intros _. by exists s.
  - destruct s as [|b s]; simpl.
    + split; [done|]. by intros [q Hq].
    + destruct (ascii_dec a b) as [->|Hne].
      * rewrite IH. split; intros [q Hq]; exists q.
        -- by rewrite str_app_cons, <- Hq.
        -- rewrite str_app_cons in Hq. by simplify_eq.
      * split; [done|]. intros [q Hq]. rewrite str_app_cons in Hq. by simplify_eq.
Qed.

Lemma startswith_spec (s pre : string) :
  Py.startswith s pre = true ↔ starts_with s pre.
Proof. apply prefix_starts_with. Qed.

Lemma endswith_nil (suf : string) :
  Py.endswith "" suf = String.eqb "" suf || false.
Proof. reflexivity. Qed.

Lemma endswith_cons (a : ascii) (s suf : string) :
  Py.endswith (String a s) suf = String.eqb (String a s) suf || Py.endswith s suf.
Proof. reflexivity. Qed.

Lemma contains_nil (sub : string) :
  Py.contains sub "" = String.prefix sub "" || false.
Proof. reflexivity. Qed.

Lemma contains_cons (sub : string) (a : ascii) (s : string) :
  Py.contains sub (String a s) = String.prefix sub (String a s) || Py.contains sub s.
Proof. reflexivity. Qed.

Lemma endswith_spec (s suf : string) :
  Py.endswith s suf = true ↔ ends_with s suf.
Proof.
  induction s as [|a s IH]; [rewrite endswith_nil|rewrite endswith_cons].
  - rewrite orb_false_r, String.eqb_eq. split.
    + intros <-. by exists "".
    + intros [p Hp]. symmetry in Hp. by apply str_app_eq_nil in Hp as [_ ->].
  - rewrite orb_true_iff, String.eqb_eq, IH. split.
    + intros [<-|[p ->]]; [by exists ""|]. by exists (String a p).
    + intros [[|b p] Hp]; [by left|]. right. exists p.
      rewrite str_app_cons in Hp. by simplify_eq.
Qed.

Lemma contains_spec (sub s : string) :
  Py.contains sub s = true ↔ has_substring s sub.
Proof.
  induction s as [|a s IH]; [rewrite contains_nil|rewrite contains_cons].
  - rewrite orb_false_r, prefix_starts_with. split.
    + intros [q Hq]. by exists "", q.
    + intros [p [q Hq]]. symmetry in Hq.
      apply str_app_eq_nil in Hq as [-> Hq]. exists q. by rewrite Hq.
  - rewrite orb_true_iff, prefix_starts_with, IH. split.
    + intros [[q Hq]|[p [q ->]]]; [by exists "", q|]. by exists (String a p), q.
    + intros [[|b p] [q Hq]]; [left; by exists q|]. right. exists p, q.
      rewrite str_app_cons in Hq. by simplify_eq.
Qed.

(** [lstrip] removes a run of the character from the front and leaves a
    string that does not begin with it. *)
Lemma lstrip_spec (c : ascii) (s : string) :
  ∃ n, s = repeat_char c n +:+ Py.lstrip c s ∧
       ∀ t, Py.lstrip c s ≠ String c t.
Proof.
  induction s as [|a s (n & Hn & Hfst)]; simpl.
  - by exists 0%nat.
  - destruct (Ascii.eqb a c) eqn:E.
    + apply ascii_eqb_true in E as ->. exists (S n). split; [|done].
      simpl. by rewrite str_app_cons, <- Hn.
    + apply ascii_eqb_false in E. exists 0%nat. split; [done|].
      intros t ?. by simplify_eq.
Qed.

(** [rstrip] removes a run of the character from the back and leaves a
    string that does not end with it. *)
Lemma rstrip_spec (c : ascii) (s : string) :
  ∃ n, s = Py.rstrip c s +:+ repeat_char c n ∧
       ∀ t, Py.rstrip c s ≠ t +:+ String c "".
Proof.
  induction s as [|a s (n & Hn & Hlst)]; simpl.
  - exists 0%nat. split; [done|]. intros [|??] ?; by simplify_eq.
  - destruct (Py.rstrip c s) as [|b r] eqn:Er.
    + destruct (Ascii.eqb a c) eqn:E.
      * apply ascii_eqb_true in E as ->. exists (S n). split.
        -- rewrite str_app_nil_l in *. simpl. by rewrite <- Hn.
        -- intros [|??] ?; by simplify_eq.
      * apply ascii_eqb_false in E. exists n. split.
        -- rewrite str_app_nil_l in Hn. by rewrite str_app_cons, str_app_nil_l, <- Hn.
        -- intros [|x [|??]] Ht; rewrite ?str_app_cons, ?str_app_nil_l in Ht; by simplify_eq.
    + exists n. split.
      * by rewrite str_app_cons, <- Hn.
      * intros [|x t] Ht; rewrite ?str_app_cons, ?str_app_nil_l in Ht; simplify_eq.
        by eapply Hlst.
Qed.

(** ** Classification without a hint *)

Lemma unmatched_bool (api_call : string) :
  unmatched api_call ↔
  Py.endswith api_call ".php" = false ∧ Py.startswith api_call "api/2.0/" = false ∧
  Py.contains "/am/" api_call = false ∧ Py.contains "/was/" api_call = false.
Proof.
  unfold unmatched.
  rewrite <- endswith_spec, <- startswith_spec, <- !contains_spec.
  by rewrite !not_true_iff_false.
Qed.

Lemma which_api_version_unmatched (api_call : string) :
  unmatched api_call → which_api_version api_call = VFalse.
Proof.
  intros (E1 & E2 & E3 & E4)%unmatched_bool. unfold which_api_version.
  by rewrite E1, E2, E3, E4.
Qed.

Lemma url_api_version_false (server : string) :
  url_api_version server VFalse = Raise (UnknownVersion VFalse).
Proof. reflexivity. Qed.

(** A call that no pattern matches, made without a hint, stops in
    [url_api_version]. *)
Lemma prepare_unmatched `{Lxml} (version : string) (self : QGConnector)
    (api_call : string) (data : option payload) (h : option hint)
    (m : option string) :
  hint_truthy h = false → unmatched (preformat_call api_call) →
  prepare version self api_call data h m = Raise (UnknownVersion VFalse).
Proof.
  intros Hh Hu. unfold prepare. rewrite Hh.
  by rewrite (which_api_version_unmatched _ Hu).
Qed.

(** C1 (as amended): without a hint the patterns are tried in order,
    suffix [.php] giving version 1, prefix [api/2.0/] version 2, substring
    [/am/] the asset management API and substring [/was/] the web
    application API; a call that matches none is classified [False], and
    [request] then fails in [url_api_version] with the unknown-version
    exception, before any transport is invoked and without touching the
    connector. *)
Theorem which_api_version_inference `{Lxml} (version : string) (net : Transport)
    (self : QGConnector) (api_call : string) (data : option payload)
    (h : option hint) (m : option string) :
  (ends_with api_call ".php" → which_api_version api_call = VInt 1) ∧
  (¬ ends_with api_call ".php" → starts_with api_call "api/2.0/" →
     which_api_version api_call = VInt 2) ∧
  (¬ ends_with api_call ".php" → ¬ starts_with api_call "api/2.0/" →
     has_substring api_call "/am/" → which_api_version api_call = VStr "am") ∧
  (¬ ends_with api_call ".php" → ¬ starts_with api_call "api/2.0/" →
     ¬ has_substring api_call "/am/" → has_substring api_call "/was/" →
     which_api_version api_call = VStr "was") ∧
  (unmatched api_call → which_api_version api_call = VFalse) ∧
  (hint_truthy h = false → unmatched (preformat_call api_call) →
     let r := request version net self api_call data h m in
     url_api_version (server self) (which_api_version (preformat_call api_call))
       = Raise (UnknownVersion VFalse) ∧
     outcome r = Raise (UnknownVersion VFalse) ∧
     taxonomy (UnknownVersion VFalse) = Some UnknownGeneration ∧
     trace r = [] ∧ self_after r = self).
Proof.
  rewrite <- endswith_spec, <- startswith_spec, <- !contains_spec.
  split_and!; [unfold which_api_version..| |].
  - by intros ->.
  - intros ->%not_true_is_false. by intros ->.
  - intros ->%not_true_is_false ->%not_true_is_false. by intros ->.
  - intros ->%not_true_is_false ->%not_true_is_false ->%not_true_is_false.
    by intros ->.
  - apply which_api_version_unmatched.
  - intros Hh Hu r. subst r. unfold request.
    rewrite (prepare_unmatched _ _ _ _ _ _ Hh Hu).
    by rewrite (which_api_version_unmatched _ Hu).
Qed.

Lemma which_api_version_inference_witness :
  unmatched (preformat_call "/scan/list?") ∧
  outcome (request "4.1.0" (fixed_transport ok_response) sample_conn
             "/scan/list?" None None None)
    = Raise (UnknownVersion VFalse).
Proof.
  assert (Hu : unmatched (preformat_call "/scan/list?")).
  { apply unmatched_bool. by vm_compute. }
  split; [exact Hu|].
  destruct (which_api_version_inference "4.1.0" (fixed_transport ok_response)
              sample_conn "/scan/list?" None None None)
    as (_ & _ & _ & _ & _ & Hreq).
  exact (proj1 (proj2 (Hreq eq_refl Hu))).
Defined.

(** C1 (as stated) fails: the call [scan/list] matches no pattern, and the
    failure of [request] is the unknown-version exception of
    [url_api_version], not an error of its own. *)
Lemma unmatched_call_is_unknown_generation :
  ¬ (∀ api_call : string, unmatched api_call →
       ∃ e, outcome (request "4.1.0" (fixed_transport ok_response) sample_conn
                       api_call None None None) = Raise e ∧
            taxonomy e = Some UnclassifiableEndpoint).
Proof.
  intros Hclaim.
  destruct (Hclaim "scan/list") as (e & He & Ht).
  { apply unmatched_bool. by vm_compute. }
  vm_compute in He. by simplify_eq.
Qed.

(** ** Verb selection *)

Lemma data_truthy_str `{Lxml} (s : string) :
  data_truthy (Some (PStr s)) = true ↔ s ≠ "".
Proof. by destruct s. Qed.

Lemma data_truthy_dict `{Lxml} (d : gmap string dict_value) :
  data_truthy (Some (PDict d)) = true ↔ d ≠ ∅.
Proof.
  simpl. rewrite negb_true_iff, bool_decide_eq_false. done.
Qed.

(** C2 (as amended): version 2 always posts; version 1 posts exactly for
    the calls of the [1 post] set; the asset management API gets exactly
    for the calls of the [am get] set; the web application API gets for the
    calls of the [was get] set, otherwise gets for the calls of the
    [was no data get] set when the payload is false in Python's sense
    (absent, an empty string, an empty mapping) and posts in every other
    case. *)
Theorem format_http_method_table `{Lxml} (self : QGConnector)
    (api_call : string) (data : option payload) :
  format_http_method self (tag GenV2) api_call data = "post" ∧
  (format_http_method self (tag GenV1) api_call data = "post"
     ↔ api_call ∈ api_methods self "1 post") ∧
  (format_http_method self (tag GenV1) api_call data = "get"
     ↔ api_call ∉ api_methods self "1 post") ∧
  (format_http_method self (tag GenAssetMgmt) api_call data = "get"
     ↔ api_call ∈ api_methods self "am get") ∧
  (format_http_method self (tag GenAssetMgmt) api_call data = "post"
     ↔ api_call ∉ api_methods self "am get") ∧
  (api_call ∈ api_methods self "was get" →
     format_http_method self (tag GenWebApp) api_call data = "get") ∧
  (api_call ∉ api_methods self "was get" → data_truthy data = false →
     (format_http_method self (tag GenWebApp) api_call data = "get"
        ↔ api_call ∈ api_methods self "was no data get") ∧
     (format_http_method self (tag GenWebApp) api_call data = "post"
        ↔ api_call ∉ api_methods self "was no data get")) ∧
  (api_call ∉ api_methods self "was get" → data_truthy data = true →
     format_http_method self (tag GenWebApp) api_call data = "post") ∧
  data_truthy None = false ∧
  data_truthy (Some (PStr "")) = false ∧
  data_truthy (Some (PDict ∅)) = false ∧
  (∀ s, s ≠ "" → data_truthy (Some (PStr s)) = true) ∧
  (∀ d, d ≠ ∅ → data_truthy (Some (PDict d)) = true).
Proof.
  unfold format_http_method. simpl.
  split_and!; try done.
  - case_bool_decide; naive_solver.
  - case_bool_decide; naive_solver.
  - case_bool_decide; naive_solver.
  - case_bool_decide; naive_solver.
  - intros Hin. by rewrite bool_decide_eq_true_2.
  - intros Hnin ->. rewrite bool_decide_eq_false_2 by done. simpl.
    case_bool_decide; naive_solver.
  - intros Hnin ->. by rewrite bool_decide_eq_false_2.
  - intros s. apply data_truthy_str.
  - intros d. apply data_truthy_dict.
Qed.

Lemma format_http_method_table_witness :
  format_http_method sample_conn (tag GenWebApp) "search/was/webapp" None = "get" ∧
  format_http_method sample_conn (tag GenWebApp) "search/was/webapp"
    (Some (PStr "<ServiceRequest/>")) = "post" ∧
  format_http_method sample_conn (tag GenWebApp) "count/was/webapp"
    (Some (PStr "<ServiceRequest/>")) = "get".
Proof.
  assert (Hnin : "search/was/webapp" ∉ api_methods sample_conn "was get").
  { refine (proj1 (bool_decide_eq_false _) _). by vm_compute. }
  assert (Hin : "search/was/webapp" ∈ api_methods sample_conn "was no data get").
  { refine (proj1 (bool_decide_eq_true _) _). by vm_compute. }
  assert (Hget : "count/was/webapp" ∈ api_methods sample_conn "was get").
  { refine (proj1 (bool_decide_eq_true _) _). by vm_compute. }
  split_and!.
  - destruct (format_http_method_table sample_conn "search/was/webapp" None)
      as (_ & _ & _ & _ & _ & _ & Hno & _).
    by apply (Hno Hnin eq_refl).
  - destruct (format_http_method_table sample_conn "search/was/webapp"
                (Some (PStr "<ServiceRequest/>")))
      as (_ & _ & _ & _ & _ & _ & _ & Hdata & _).
    exact (Hdata Hnin eq_refl).
  - destruct (format_http_method_table sample_conn "count/was/webapp"
                (Some (PStr "<ServiceRequest/>")))
      as (_ & _ & _ & _ & _ & Hg & _).
    exact (Hg Hget).
Defined.

(** C2 (as stated) fails: a payload that is supplied but empty counts as no
    payload, so a call of the [was no data get] set is sent with GET. *)
Lemma empty_payload_selects_get :
  ¬ (∀ (self : QGConnector) (api_call : string) (data : option payload),
       data ≠ None → api_call ∉ api_methods self "was get" →
       format_http_method self (tag GenWebApp) api_call data = "post").
Proof.
  intros Hclaim.
  specialize (Hclaim sample_conn "search/was/webapp" (Some (PStr ""))).
  assert (Hnin : "search/was/webapp" ∉ api_methods sample_conn "was get").
  { refine (proj1 (bool_decide_eq_false _) _). by vm_compute. }
  specialize (Hclaim ltac:(done) Hnin). vm_compute in Hclaim. done.
Qed.

(** ** Rate-limit tracking *)

Lemma int_raises_value_error (s : string) (e : exn) :
  Py.int s = Raise e → e = ValueError.
Proof.
  unfold Py.int.
  destruct (Py.strip_space s) as [|a t]; [by intros [= <-]|].
  destruct (Ascii.eqb a "-"); [|destruct (Ascii.eqb a "+")];
    repeat case_match; by intros [= <-].
Qed.

(** A header that [int()] accepts is stored under the call, over any
    earlier value. *)
Lemma record_rate_limit_numeric (m : gmap string Z) (api_call : string)
    (r : response) (s : string) (n : Z) :
  headers r !! "x-ratelimit-remaining" = Some (HText s) → Py.int s = Return n →
  record_rate_limit m api_call r = Return (<[api_call := n]> m).
Proof.
  intros Hh Hn. unfold record_rate_limit, header_getitem. rewrite Hh. simpl.
  by rewrite Hn.
Qed.

(** A missing header leaves the mapping as it is. *)
Lemma record_rate_limit_missing (m : gmap string Z) (api_call : string)
    (r : response) :
  headers r !! "x-ratelimit-remaining" = None →
  record_rate_limit m api_call r = Return m.
Proof. intros Hh. unfold record_rate_limit, header_getitem. by rewrite Hh. Qed.

Lemma record_rate_limit_not_text (m : gmap string Z) (api_call : string)
    (r : response) :
  headers r !! "x-ratelimit-remaining" = Some HOther →
  record_rate_limit m api_call r = Return m.
Proof. intros Hh. unfold record_rate_limit, header_getitem. by rewrite Hh. Qed.

(** A header text that [int()] rejects is not among the handled
    exceptions: the [ValueError] leaves the [try] block. *)
Lemma record_rate_limit_invalid (m : gmap string Z) (api_call : string)
    (r : response) (s : string) (e : exn) :
  headers r !! "x-ratelimit-remaining" = Some (HText s) → Py.int s = Raise e →
  record_rate_limit m api_call r = Raise ValueError.
Proof.
  intros Hh He. unfold record_rate_limit, header_getitem. rewrite Hh. simpl.
  rewrite He. by rewrite (int_raises_value_error _ _ He).
Qed.

(** C3: the recorder on a response whose rate-limit header reads [n/a]:
    the [ValueError] of [int()] is not handled, so recording is not a
    no-op and the request that received the response fails with it. *)
Theorem record_rate_limit_non_numeric :
  record_rate_limit {[ "count/am/tag" := 42 ]} "count/am/tag" garbled_response
    = Raise ValueError ∧
  outcome (request "4.1.0" (fixed_transport garbled_response) sample_conn
             "count/am/tag" None None None) = Raise ValueError.
Proof. by vm_compute. Qed.

(** With a failing status, the error of [raise_for_status] is raised after
    the rate-limit header has been dealt with. *)
Lemma request_direct_failing_status `{Lxml} (net : Transport)
    (self : QGConnector) (p : prepared) (r : response) (m : gmap string Z) :
  r = (if String.eqb (p_method p) "get"
       then requests_get net else requests_post net)
        {| hc_url := p_url p; hc_data := p_data p; hc_auth := auth self;
           hc_headers := p_headers p; hc_proxies := proxies self |} →
  400 ≤ status_code r < 600 →
  record_rate_limit (rate_limit_remaining self) (p_call p) r = Return m →
  outcome (request_direct net self p) = Raise (HTTPError (status_code r) (content r)) ∧
  rate_limit_remaining (self_after (request_direct net self p)) = m.
Proof.
  intros Hr Hst Hrec. unfold request_direct.
  destruct (String.eqb (p_method p) "get"); subst r; rewrite Hrec; simpl;
    unfold raise_for_status;
    (rewrite (proj2 (Z.leb_le _ _)), (proj2 (Z.ltb_lt _ _)) by lia); done.
Qed.

(** C4: a response with status 503 whose rate-limit header reads [n/a]:
    the request is dispatched, and what reaches the caller is the
    [ValueError] of the recorder, not the error of [raise_for_status]. *)
Theorem failing_status_non_numeric_header :
  let r := request "4.1.0" (fixed_transport failing_garbled_response)
             sample_conn "count/am/tag" None None None in
  outcome r = Raise ValueError ∧
  length (trace r) = 1%nat ∧
  rate_limit_remaining (self_after r) = rate_limit_remaining sample_conn.
Proof. by vm_compute. Qed.

(** ** Payload transcoding *)

Lemma rstrip_head (c a : ascii) (s r : string) :
  Py.rstrip c s = String a r → ∃ r', s = String a r'.
Proof.
  destruct s as [|b s]; [done|]. simpl.
  destruct (Py.rstrip c s); [destruct (Ascii.eqb b c)|]; intros ?; simplify_eq; eauto.
Qed.

Lemma add_pair_lookup (d : gmap string (list string)) (nv : string * string)
    (k : string) :
  Urlparse.add_pair d nv !! k =
    if decide (nv.1 = k) then Some (default [] (d !! k) ++ [nv.2]) else d !! k.
Proof.
  unfold Urlparse.add_pair. case_decide as Hk.
  - subst k. destruct (d !! nv.1) eqn:E; by rewrite lookup_insert_eq.
  - destruct (d !! nv.1); by rewrite lookup_insert_ne.
Qed.

Lemma values_of_cons (k : string) (nv : string * string)
    (l : list (string * string)) :
  values_of k (nv :: l) =
    if decide (nv.1 = k) then nv.2 :: values_of k l else values_of k l.
Proof.
  unfold values_of. rewrite filter_cons. by case_decide.
Qed.

(** The loop of [parse_qs]: the values of a name are appended in the
    order of the pairs. *)
Lemma foldl_add_pair_lookup (l : list (string * string))
    (d : gmap string (list string)) (k : string) :
  foldl Urlparse.add_pair d l !! k =
    match values_of k l with
    | [] => d !! k
    | vs => Some (default [] (d !! k) ++ vs)
    end.
Proof.
  revert d. induction l as [|nv l IH]; intros d; [done|].
  simpl. rewrite IH, add_pair_lookup, values_of_cons.
  case_decide; [|done]. simpl.
  destruct (values_of k l); [done|]. by rewrite <- (assoc_L (++)).
Qed.

Lemma parse_qs_lookup (qs k : string) :
  Urlparse.parse_qs qs !! k =
    match values_of k (Urlparse.parse_qsl qs) with
    | [] => None
    | vs => Some vs
    end.
Proof.
  unfold Urlparse.parse_qs. rewrite foldl_add_pair_lookup, lookup_empty.
  by destruct (values_of _ _).
Qed.

(** C5 (as amended): under versions 1 and 2 a string payload loses every
    leading [?] and every trailing [&], and what remains is parsed as a
    query string: each name is mapped to the list of its values in the
    order in which they occur; a mapping is passed through unchanged. *)
Theorem format_payload_query_string `{Lxml} (g : generation) (s : string)
    (d : gmap string dict_value) :
  g = GenV1 ∨ g = GenV2 →
  let q := Py.rstrip "&" (Py.lstrip "?" s) in
  format_payload (tag g) (PStr s) = PDict (DList <$> Urlparse.parse_qs q) ∧
  (∃ n m, s = repeat_char "?" n +:+ q +:+ repeat_char "&" m) ∧
  (∀ t, q ≠ String "?" t) ∧ (∀ t, q ≠ t +:+ "&") ∧
  (∀ k, Urlparse.parse_qs q !! k =
          match values_of k (Urlparse.parse_qsl q) with
          | [] => None
          | vs => Some vs
          end) ∧
  format_payload (tag g) (PDict d) = PDict d ∧
  format_payload (tag g) (PStr "?ids=1&ids=2&")
    = PDict {[ "ids" := DList ["1"; "2"] ]}.
Proof.
  intros Hg q.
  destruct (lstrip_spec "?" s) as (n & Hn & Hfst).
  destruct (rstrip_spec "&" (Py.lstrip "?" s)) as (m & Hm & Hlst).
  split_and!.
  - by destruct Hg as [-> | ->].
  - exists n, m. subst q. by rewrite <- Hm.
  - intros t Hq. apply rstrip_head in Hq as [r' Hr]. by eapply Hfst.
  - apply Hlst.
  - apply parse_qs_lookup.
  - by destruct Hg as [-> | ->].
  - destruct Hg as [-> | ->]; by vm_compute.
Qed.

Lemma format_payload_query_string_witness :
  format_payload (tag GenV1) (PStr "??action=list&ids=1&ids=2&&")
    = PDict {[ "action" := DList ["list"]; "ids" := DList ["1"; "2"] ]}.
Proof.
  destruct (format_payload_query_string GenV1 "??action=list&ids=1&ids=2&&" ∅
              (or_introl eq_refl)) as (Hq & _).
  rewrite Hq. by vm_compute.
Defined.

(** C5 (as stated) fails: of two leading question marks both are removed,
    not one. *)
Lemma lstrip_removes_every_question_mark :
  ¬ (∀ s : string,
       format_payload (tag GenV1) (PStr s)
         = PDict (DList <$> transcode_one_leading s)).
Proof.
  intros Hclaim. specialize (Hclaim "??ids=1").
  vm_compute in Hclaim. done.
Qed.

(** ** Call normalisation *)

Lemma str_app_snoc_inj (s t : string) (a b : ascii) :
  s +:+ String a "" = t +:+ String b "" → s = t ∧ a = b.
Proof.
  revert t. induction s as [|x s IH]; intros [|y t] Heq;
    rewrite ?str_app_cons, ?str_app_nil_l in Heq.
  - by simplify_eq.
  - destruct t; by simplify_eq.
  - destruct s; by simplify_eq.
  - injection Heq as -> Heq. by destruct (IH _ Heq) as [-> ->].
Qed.

Lemma last_char_spec (s : string) :
  s ≠ "" → ∃ t c, s = t +:+ String c "" ∧ Py.last_char s = Return c.
Proof.
  induction s as [|a s IH]; [done|]. intros _.
  destruct s as [|b s]; [by exists "", a|].
  destruct IH as (t & c & Ht & Hc); [done|].
  exists (String a t), c. split; [by rewrite str_app_cons, <- Ht|done].
Qed.

Lemma last_char_slash (s : string) (c : ascii) :
  Py.last_char s = Return c → (Ascii.eqb c "/" = true ↔ ends_with s "/").
Proof.
  intros Hc. assert (s ≠ "") as Hs by (by intros ->).
  destruct (last_char_spec s Hs) as (t & c' & -> & Hc').
  rewrite Hc' in Hc. simplify_eq. rewrite ascii_eqb_true. split.
  - intros ->. by exists t.
  - intros [p Hp]. by apply str_app_snoc_inj in Hp as [_ ->].
Qed.

Lemma preformat_call_spec (raw : string) :
  (∃ n m, raw = repeat_char "/" n +:+ preformat_call raw +:+ repeat_char "?" m) ∧
  (∀ t, preformat_call raw ≠ String "/" t) ∧
  (∀ t, preformat_call raw ≠ t +:+ "?").
Proof.
  unfold preformat_call.
  destruct (lstrip_spec "/" raw) as (n & Hn & Hfst).
  destruct (rstrip_spec "?" (Py.lstrip "/" raw)) as (m & Hm & Hlst).
  split_and!.
  - exists n, m. by rewrite <- Hm.
  - intros t Hq. apply rstrip_head in Hq as [r' Hr]. by eapply Hfst.
  - apply Hlst.
Qed.

(** The first step of [format_call] under each version. *)
Lemma format_call_steps (self : QGConnector) (g : generation) (raw : string) :
  let s := preformat_call raw in
  (g = GenV2 → s ≠ "") →
  ∃ s1,
    (g = GenV2 ∧ ¬ ends_with s "/" → s1 = s +:+ "/") ∧
    (g ≠ GenV2 ∨ ends_with s "/" → s1 = s) ∧
    (g = GenV2 → ends_with s1 "/") ∧
    format_call self (tag g) raw =
      Return (if bool_decide (s1 ∈ api_methods_with_trailing_slash self (tag g))
              then s1 +:+ "/" else s1).
Proof.
  intros s Hne. unfold format_call. fold (preformat_call raw). fold s.
  destruct (decide (g = GenV2)) as [->|Hg].
  - destruct (last_char_spec s (Hne eq_refl)) as (t & c & Ht & Hc).
    simpl. rewrite Hc. simpl.
    pose proof (last_char_slash s c Hc) as Hsl.
    destruct (Ascii.eqb c "/") eqn:E.
    + exists s. split_and!; [|done|intros _; by apply Hsl|done].
      intros [_ Hn]. destruct Hn. by apply Hsl.
    + exists (s +:+ "/"). split_and!; [done| |intros _; by exists s|done].
      intros [?|He]; [done|]. apply Hsl in He. done.
  - exists s. split_and!; [by intros [? _]|done|done|].
    by destruct g.
Qed.




(** ** Classification from a hint *)

Lemma in_tuple_elem_of (x : string) (t : list string) :
  in_tuple x t = true ↔ x ∈ t.
Proof.
  unfold in_tuple. rewrite existsb_exists, list_elem_of_In. split.
  - by intros (y & Hy & ->%String.eqb_eq).
  - intros Hx. exists x. by rewrite String.eqb_refl.
Qed.

Lemma in_tuple_not_elem_of (x : string) (t : list string) :
  in_tuple x t = false ↔ x ∉ t.
Proof. by rewrite <- in_tuple_elem_of, not_true_iff_false. Qed.

Lemma lower_nil (h : string) : Py.lower h = "" → h = "".
Proof. by destruct h. Qed.

(** Apart from the empty hint and the hint [v], the index test succeeds
    and leaves the folded hint. *)
Lemma strip_v_folded (h : string) :
  h ≠ "" → Py.lower h ≠ "v" → strip_v (Py.lower h) = Return (folded_hint h).
Proof.
  intros Hh Hv. unfold folded_hint, strip_v.
  destruct (Py.lower h) as [|a [|d r]] eqn:E.
  - by apply lower_nil in E.
  - simpl. destruct (Ascii.eqb a "v") eqn:Ea; [|done].
    by apply ascii_eqb_true in Ea as ->.
  - simpl. destruct (Ascii.eqb a "v"); [|done]. simpl.
    by destruct (Py.isdigit d).
Qed.

Lemma lstrip_space_spec (s : string) :
  ∃ l, s = l +:+ Py.lstrip_space s ∧ all_chars Ascii.is_space l = true.
Proof.
  induction s as [|a s (l & Hl & Hsp)]; [by exists ""|]. simpl.
  destruct (Ascii.is_space a) eqn:E; [|by exists ""].
  exists (String a l). split; [by rewrite str_app_cons, <- Hl|]. simpl. by rewrite E.
Qed.

Lemma rstrip_space_spec (s : string) :
  ∃ r, s = Py.rstrip_space s +:+ r ∧ all_chars Ascii.is_space r = true.
Proof.
  induction s as [|a s (r & Hr & Hsp)]; [by exists ""|]. simpl.
  destruct (Py.rstrip_space s) as [|b t] eqn:Et.
  - rewrite str_app_nil_l in Hr. subst r.
    destruct (Ascii.is_space a) eqn:E.
    + exists (String a s). split; [done|]. simpl. by rewrite E.
    + by exists s.
  - exists r. split; [by rewrite str_app_cons, <- Hr|done].
Qed.

Lemma digits_all (s : string) (acc n : Z) :
  Py.digits acc s = Some n → all_chars Py.isdigit s = true.
Proof.
  revert acc. induction s as [|a s IH]; intros acc; [done|]. simpl.
  destruct (Py.isdigit a); [|done]. apply IH.
Qed.

Lemma digits_decimal (s : string) (acc : Z) :
  all_chars Py.isdigit s = true → Py.digits acc s = Some (decimal acc s).
Proof.
  revert acc. induction s as [|a s IH]; intros acc; [done|]. simpl.
  intros [-> Hs]%andb_true_iff. by apply IH.
Qed.

(** What [int()] accepts is a numeral. *)
Lemma int_numeral (s : string) (n : Z) : Py.int s = Return n → numeral s.
Proof.
  unfold Py.int, Py.strip_space.
  destruct (lstrip_space_spec s) as (l & Hl & Hlsp).
  destruct (rstrip_space_spec (Py.lstrip_space s)) as (r & Hr & Hrsp).
  destruct (Py.rstrip_space (Py.lstrip_space s)) as [|a t] eqn:Et; [done|].
  assert (Hbody : ∀ sg body sign,
            (sg = "" ∨ sg = "+" ∨ sg = "-") → String a t = sg +:+ body →
            match body with
            | "" => Raise ValueError
            | _ => match Py.digits 0 body with
                   | Some n => Return (sign * n)
                   | None => Raise ValueError
                   end
            end = Return n → numeral s).
  { intros sg body sign Hsg Hat Hres.
    exists l, sg, body, r. split_and!; [|done..|].
    - by rewrite Hl, Hr, Hat, str_app_assoc.
    - destruct body as [|b body]; [done|]. split; [done|].
      destruct (Py.digits 0 (String b body)) eqn:Ed; [|done].
      by eapply digits_all. }
  destruct (Ascii.eqb a "-") eqn:E1.
  { apply ascii_eqb_true in E1 as ->. apply (Hbody "-"); auto. }
  destruct (Ascii.eqb a "+") eqn:E2.
  { apply ascii_eqb_true in E2 as ->. apply (Hbody "+"); auto. }
  intros Hres. apply (Hbody "" (String a t) 1); auto.
Qed.

Lemma isdigit_not_space (a : ascii) : Py.isdigit a = true → Ascii.is_space a = false.
Proof. destruct a as [[] [] [] [] [] [] [] []]; by vm_compute. Qed.

Lemma isdigit_not_sign (a : ascii) :
  Py.isdigit a = true → Ascii.eqb a "-" = false ∧ Ascii.eqb a "+" = false.
Proof. destruct a as [[] [] [] [] [] [] [] []]; by vm_compute. Qed.

Lemma rstrip_space_digits (s : string) :
  all_chars Py.isdigit s = true → Py.rstrip_space s = s.
Proof.
  induction s as [|a s IH]; [done|]. simpl.
  intros [Ha Hs]%andb_true_iff. rewrite (IH Hs).
  destruct s; [|done]. by rewrite (isdigit_not_space _ Ha).
Qed.

(** A digit string is read as the number it writes. *)
Lemma int_digit_string (s : string) :
  digit_string s → Py.int s = Return (decimal 0 s).
Proof.
  intros [Hne Hall]. unfold Py.int, Py.strip_space.
  destruct s as [|a s]; [done|].
  pose proof Hall as [Ha Hs]%andb_true_iff.
  assert (Py.lstrip_space (String a s) = String a s) as ->.
  { simpl. by rewrite (isdigit_not_space _ Ha). }
  rewrite (rstrip_space_digits _ Hall).
  destruct (isdigit_not_sign _ Ha) as [-> ->].
  rewrite (digits_decimal _ _ Hall). f_equal. lia.
Qed.

Lemma format_api_version_folded (h : string) :
  h ≠ "" → Py.lower h ≠ "v" →
  format_api_version (HStr h) =
    let s := folded_hint h in
    if in_tuple s am_synonyms then Return (VStr "am")
    else if in_tuple s was_synonyms then Return (VStr "was")
    else if in_tuple s pc_synonyms then Return (VInt 2)
    else n ← Py.int s; Return (VInt n).
Proof.
  intros Hh Hv. unfold format_api_version. by rewrite strip_v_folded.
Qed.

Lemma digit_string_not_synonym (s : string) :
  digit_string s →
  in_tuple s am_synonyms = false ∧ in_tuple s was_synonyms = false ∧
  in_tuple s pc_synonyms = false.
Proof.
  intros [_ Hall]. rewrite !in_tuple_not_elem_of.
  split_and!; intros Hin;
    repeat (apply elem_of_cons in Hin as [->|Hin]; [by vm_compute in Hall|]);
    by apply elem_of_nil in Hin.
Qed.




(** ** The rate-limit mapping as callers see it *)

Lemma record_rate_limit_cases (m m' : gmap string Z) (api_call : string)
    (r : response) :
  record_rate_limit m api_call r = Return m' →
  m' = m ∨
  ∃ s n, headers r !! "x-ratelimit-remaining" = Some (HText s) ∧
         Py.int s = Return n ∧ m' = <[api_call := n]> m.
Proof.
  unfold record_rate_limit, header_getitem.
  destruct (headers r !! "x-ratelimit-remaining") as [[s|]|] eqn:Eh; simpl.
  - destruct (Py.int s) as [n|e] eqn:En; simpl.
    + intros [= <-]. right. by exists s, n.
    + by rewrite (int_raises_value_error _ _ En).
  - intros [= <-]. by left.
  - intros [= <-]. by left.
Qed.

(** [request] changes the mapping only by storing the header of a
    response under the formatted call. *)
Lemma request_rate_limit `{Lxml} (version : string) (net : Transport)
    (self : QGConnector) (api_call : string) (data : option payload)
    (h : option hint) (m : option string) :
  let r := request version net self api_call data h m in
  rate_limit_remaining (self_after r) = rate_limit_remaining self ∨
  ∃ p n, prepare version self api_call data h m = Return p ∧
         curl_use_subprocess self = false ∧ length (trace r) = 1%nat ∧
         rate_limit_remaining (self_after r)
           = <[p_call p := n]> (rate_limit_remaining self).
Proof.
  unfold request.
  destruct (prepare version self api_call data h m) as [p|e] eqn:Ep; [|by left].
  destruct (curl_use_subprocess self) eqn:Ec.
  { unfold request_subprocess. case_match; by left. }
  unfold request_direct. simpl.
  destruct (String.eqb (p_method p) "get");
    (destruct (record_rate_limit _ _ _) as [m'|e] eqn:Er; [|by left]);
    (apply record_rate_limit_cases in Er as [->|(s & n & _ & _ & ->)];
     [by left|right; by exists p, n]).
Qed.




(** ** A call that is empty after stripping *)

Lemma lstrip_nil (c : ascii) (s : string) :
  Py.lstrip c s = "" → ∃ n, s = repeat_char c n.
Proof.
  destruct (lstrip_spec c s) as (n & Hn & _). intros E.
  exists n. rewrite Hn at 1. by rewrite E, str_app_nil_r.
Qed.

Lemma rstrip_nil (c : ascii) (s : string) :
  Py.rstrip c s = "" → ∃ n, s = repeat_char c n.
Proof.
  destruct (rstrip_spec c s) as (n & Hn & _). intros E.
  exists n. rewrite Hn at 1. by rewrite E.
Qed.

(** C10: when the call is empty after stripping its leading [/] and its
    trailing [?], a request whose hint resolves to version 2 fails in
    [format_call] with the [IndexError] of [api_call[-1]], before any
    transport is invoked, and that exception is none of the errors of the
    specification; without a hint the same call fails in
    [url_api_version], the classification having returned [False]. *)
Theorem empty_call_index_error `{Lxml} (version : string) (net : Transport)
    (self : QGConnector) (raw : string) (data : option payload) (h : hint)
    (m : option string) :
  preformat_call raw = "" →
  hint_truthy (Some h) = true →
  format_api_version h = Return (tag GenV2) →
  (∃ n k, raw = repeat_char "/" n +:+ repeat_char "?" k) ∧
  Py.last_char (preformat_call raw) = Raise IndexError ∧
  format_call self (tag GenV2) raw = Raise IndexError ∧
  (let r := request version net self raw data (Some h) m in
   outcome r = Raise IndexError ∧ trace r = [] ∧ self_after r = self) ∧
  taxonomy IndexError = None ∧
  (∀ h0, hint_truthy h0 = false →
     let r := request version net self raw data h0 m in
     which_api_version (preformat_call raw) = VFalse ∧
     url_api_version (server self) VFalse = Raise (UnknownVersion VFalse) ∧
     outcome r = Raise (UnknownVersion VFalse) ∧ trace r = [] ∧
     self_after r = self).
Proof.
  intros Hraw Hh Hv.
  assert (Hcall : ∀ s, preformat_call s = "" →
                       format_call self (tag GenV2) s = Raise IndexError).
  { intros s Hs. unfold format_call. fold (preformat_call s). by rewrite Hs. }
  split_and!.
  - destruct (preformat_call_spec raw) as ((n & k & Hnk) & _).
    exists n, k. rewrite Hnk at 1. by rewrite Hraw.
  - by rewrite Hraw.
  - by apply Hcall.
  - unfold request, prepare. by rewrite Hh, Hv, Hraw.
  - done.
  - intros h0 Hh0. unfold request, prepare. by rewrite Hh0, Hraw.
Qed.

Lemma empty_call_index_error_witness :
  outcome (request "4.1.0" (fixed_transport ok_response) sample_conn "/"
             None (Some (HStr "v2")) None) = Raise IndexError ∧
  outcome (request "4.1.0" (fixed_transport ok_response) sample_conn "/?"
             None (Some (HInt 2)) (Some "get")) = Raise IndexError ∧
  outcome (request "4.1.0" (fixed_transport ok_response) sample_conn ""
             None None None) = Raise (UnknownVersion VFalse).
Proof.
  split_and!.
  - destruct (empty_call_index_error "4.1.0" (fixed_transport ok_response)
                sample_conn "/" None (HStr "v2") None)
      as (_ & _ & _ & (Ho & _) & _); done.
  - destruct (empty_call_index_error "4.1.0" (fixed_transport ok_response)
                sample_conn "/?" None (HInt 2) (Some "get"))
      as (_ & _ & _ & (Ho & _) & _); done.
  - destruct (empty_call_index_error "4.1.0" (fixed_transport ok_response)
                sample_conn "" None (HStr "pc") None)
      as (_ & _ & _ & _ & _ & Hno); [done..|].
    by destruct (Hno None eq_refl) as (_ & _ & Ho & _).
Defined.

(** ** The two transports *)

Lemma py_insert_before_last {A} (pre : list A) (u i : A) :
  py_insert (length (pre ++ [u]) - 1) i (pre ++ [u]) = (pre ++ [i]) ++ [u].
Proof.
  unfold py_insert. rewrite length_app. simpl.
  replace (length pre + 1 - 1)%nat with (length pre) by lia.
  rewrite take_app_length, drop_app_length. by rewrite <- (assoc_L (++)).
Qed.

Lemma curl_insert_before_last (pre items : list string) (u : string) :
  curl_insert (pre ++ [u]) items = pre ++ items ++ [u].
Proof.
  unfold curl_insert. revert pre.
  induction items as [|i items IH]; intros pre; [done|]. simpl.
  rewrite py_insert_before_last, IH. by rewrite <- (assoc_L (++)).
Qed.

#[local] Arguments curl_insert : simpl never.
#[local] Arguments curl_opts : simpl never.

Lemma curl_opts_cons (flag v : string) (vs : list string) :
  curl_opts flag (v :: vs) = flag :: v :: curl_opts flag vs.
Proof. reflexivity. Qed.

Lemma curl_insert_headers {A} (f : A → string) (hs : list A)
    (pre : list string) (u : string) :
  foldl (λ c h, curl_insert c ["-H"; f h]) (pre ++ [u]) hs
    = pre ++ curl_opts "-H" (f <$> hs) ++ [u].
Proof.
  revert pre. induction hs as [|h hs IH]; intros pre; [done|].
  rewrite fmap_cons, curl_opts_cons. cbn [foldl].
  rewrite curl_insert_before_last.
  rewrite (assoc_L (++) pre), IH.
  by rewrite <- !(assoc_L (++)).
Qed.

(** The command line of a successful [curl_command]. *)
Lemma curl_command_shape `{Lxml} (self : QGConnector) (url : string)
    (hdrs : gmap string string) (data : option payload) (args : list string) :
  curl_command self url hdrs data = Return args →
  args = ["curl"; "-k"; "-u"; (auth self).1 +:+ ":" +:+ (auth self).2] ++
         curl_opts "-H" (header_lines hdrs) ++
         curl_opts "-d"
           match data with
           | Some (PStr s) => if Py.truthy_str s then [s] else []
           | Some (PDict d) =>
               if bool_decide (d = ∅) then []
               else [Urllib.urlencode (first_value <$> d)]
           | _ => []
           end ++
         curl_opts "--proxy"
           match proxies self with
           | Some m => option_list (m !! "https")
           | None => []
           end ++
         [url].
Proof.
  unfold curl_command.
  change ["curl"; "-k"; "-u"; (auth self).1 +:+ ":" +:+ (auth self).2; url]
    with (["curl"; "-k"; "-u"; (auth self).1 +:+ ":" +:+ (auth self).2] ++ [url]).
  rewrite (curl_insert_headers (λ h, h.1 +:+ ": " +:+ h.2)).
  fold (header_lines hdrs).
  set (pre := ["curl"; "-k"; "-u"; (auth self).1 +:+ ":" +:+ (auth self).2]).
  set (hs := curl_opts "-H" (header_lines hdrs)).
  clearbody pre hs.
  assert (Hproxy : ∀ c ds,
    c = pre ++ hs ++ curl_opts "-d" ds ++ [url] →
    (if proxies_truthy (proxies self)
     then p ← proxies_https (default ∅ (proxies self));
          Return (curl_insert c ["--proxy"; p])
     else Return c) = Return args →
    args = pre ++ hs ++ curl_opts "-d" ds ++
           curl_opts "--proxy"
             match proxies self with
             | Some m => option_list (m !! "https")
             | None => []
             end ++ [url]).
  { intros c ds -> Hres. destruct (proxies self) as [m|]; simpl in Hres.
    - destruct (bool_decide (m = ∅)) eqn:Em; simpl in Hres.
      + apply bool_decide_eq_true in Em as ->. by simplify_eq.
      + unfold proxies_https in Hres.
        destruct (m !! "https") as [x|]; [|done]. simpl in Hres.
        simplify_eq. rewrite !(assoc_L (++)), curl_insert_before_last.
        by rewrite <- !(assoc_L (++)).
    - by simplify_eq. }
  destruct data as [[s|d|x]|]; simpl.
  - destruct s as [|a s]; simpl.
    + by apply (Hproxy _ []).
    + apply (Hproxy _ [String a s]).
      rewrite (assoc_L (++) pre), curl_insert_before_last.
      by rewrite <- !(assoc_L (++)).
  - destruct (decide (d = ∅)) as [Hd|Hd].
    + rewrite !bool_decide_eq_true_2 by done. simpl.
      by apply (Hproxy _ []).
    + rewrite !(bool_decide_eq_false_2 (d = ∅)) by done. simpl.
      unfold first_values. case_bool_decide; [|done]. simpl.
      apply (Hproxy _ [_]).
      rewrite (assoc_L (++) pre), curl_insert_before_last.
      by rewrite <- !(assoc_L (++)).
  - destruct (element_bool x); simpl; [done|].
    by apply (Hproxy _ []).
  - by apply (Hproxy _ []).
Qed.

Lemma curl_option_fold (flag : string) (vs : list string) (i : curl_invocation) :
  foldr (curl_option flag) i vs =
    {| cu_insecure := cu_insecure i;
       cu_user := (if String.eqb flag "-u" then vs else []) ++ cu_user i;
       cu_headers := (if String.eqb flag "-H" then vs else []) ++ cu_headers i;
       cu_data := (if String.eqb flag "-d" then vs else []) ++ cu_data i;
       cu_proxy := (if String.eqb flag "--proxy" then vs else []) ++ cu_proxy i;
       cu_urls := cu_urls i |}.
Proof.
  induction vs as [|v vs IH]; simpl.
  - destruct i. by repeat case_match.
  - rewrite IH. unfold curl_option. simpl. by repeat case_match.
Qed.

Lemma curl_parse_opts (flag : string) (vs rest : list string) :
  takes_value flag = true → String.eqb flag "-k" = false →
  curl_parse (curl_opts flag vs ++ rest)
    = foldr (curl_option flag) (curl_parse rest) vs.
Proof.
  intros Ht Hk. induction vs as [|v vs IH]; [done|].
  rewrite curl_opts_cons. cbn [app curl_parse foldr].
  by rewrite Hk, Ht, IH.
Qed.

Lemma https_not_option (r : string) :
  takes_value ("https://" +:+ r) = false ∧
  String.eqb ("https://" +:+ r) "-k" = false.
Proof. by cbv. Qed.

(** Read back by [curl], the command line of [curl_command] holds one
    URL, the credentials, and the given headers, data and proxy. *)
Lemma curl_parse_command (cred url : string) (hs ds ps : list string) :
  takes_value url = false → String.eqb url "-k" = false →
  curl_parse (["-k"; "-u"; cred] ++ curl_opts "-H" hs ++ curl_opts "-d" ds ++
              curl_opts "--proxy" ps ++ [url])
    = {| cu_insecure := true; cu_user := [cred]; cu_headers := hs;
         cu_data := ds; cu_proxy := ps; cu_urls := [url] |}.
Proof.
  intros Ht Hk.
  change (curl_parse (["-k"; "-u"; cred] ++ ?rest))
    with (curl_switch (curl_option "-u" cred (curl_parse rest))).
  rewrite !curl_parse_opts by done.
  cbn [curl_parse]. rewrite Hk, Ht.
  rewrite !curl_option_fold. unfold curl_switch, curl_option, curl_url. simpl.
  by rewrite !(right_id_L [] (++)).
Qed.

Lemma url_api_version_https (server : string) (v : api_version) (u : string) :
  url_api_version server v = Return u → ∃ r, u = "https://" +:+ r.
Proof.
  unfold url_api_version. repeat case_match; intros ?; simplify_eq; eauto.
Qed.

Lemma prepare_inv `{Lxml} (version : string) (self : QGConnector)
    (api_call : string) (data : option payload) (h : option hint)
    (m : option string) (p : prepared) :
  prepare version self api_call data h m = Return p →
  ∃ url, url_api_version (server self) (p_version p) = Return url ∧
         format_call self (p_version p) (preformat_call api_call) = Return (p_call p) ∧
         p_url p = url +:+ p_call p ∧
         p_headers p = request_headers version (p_version p) ∧
         p_data p = format_payload (p_version p) <$> data.
Proof.
  unfold prepare.
  set (rv := if hint_truthy h then _ else _). destruct rv as [v|]; [|done].
  simpl. destruct (url_api_version (server self) v) as [url|] eqn:Eu; [|done].
  simpl. destruct (format_call self v (preformat_call api_call)) as [c|] eqn:Ec;
    [|done].
  simpl. intros [= <-]. simpl. by exists url.
Qed.




(** ** Worked examples *)

(** The asset-management scenario: the hint [tags] selects the asset
    management API, the call of the [am get] set is sent with GET to the
    REST 1.0 base URL, without a payload, and the remaining count of the
    response is stored under the call. *)
Example request_am_get :
  let r := request "4.1.0" (fixed_transport ok_response) sample_conn
             "/count/am/tag" None (Some (HStr "tags")) None in
  outcome r = Return (Content "<ok/>") ∧
  rate_limit_remaining (self_after r) !! "count/am/tag" = Some 42 ∧
  ∃ c, trace r = [EvGet c] ∧
       hc_url c = "https://qualysapi.qualys.com/qps/rest/1.0/count/am/tag" ∧
       hc_data c = None ∧
       hc_headers c !! "Content-type" = Some "text/xml".
Proof. split_and!; [by vm_compute..|]. eexists. by vm_compute. Qed.

(** A failing status with a numeric header: the count is stored, then the
    error of [raise_for_status] is raised. *)
Example request_failing_status :
  let resp := {| status_code := 404;
                 headers := {[ "x-ratelimit-remaining" := HText "7" ]};
                 content := "<missing/>" |} in
  let r := request "4.1.0" (fixed_transport resp) sample_conn
             "api/2.0/fo/scan" (Some (PStr "action=list")) None None in
  outcome r = Raise (HTTPError 404 "<missing/>") ∧
  rate_limit_remaining (self_after r) !! "api/2.0/fo/scan/" = Some 7.
Proof. by vm_compute. Qed.

(** Hints outside the known versions reach [url_api_version]. *)
Example request_unknown_version :
  outcome (request "4.1.0" (fixed_transport ok_response) sample_conn
             "scan.php" None (Some (HStr "v3")) None)
    = Raise (UnknownVersion (VInt 3)).
Proof. by vm_compute. Qed.

(** The one-letter hint [v] stops at the index test. *)
Example format_api_version_v :
  format_api_version (HStr "v") = Raise IndexError.
Proof. reflexivity. Qed.

Example parse_qsl_example :
  Urlparse.parse_qsl "a=1%202&b=&c&a=3+4;d=%zz"
    = [("a", "1 2"); ("a", "3 4"); ("d", "%zz")].
Proof. by vm_compute. Qed.

Example urlencode_example :
  Urllib.urlencode {[ "action" := "list"; "title" := "a b&c" ]}
    = "action=list&title=a+b%26c".
Proof. by vm_compute. Qed.

(** * Further properties of the connector *)

(** ** The base URL *)

Lemma version_eqb_tag (v : api_version) (g : generation) :
  version_eqb v (tag g) = true ↔ v = tag g.
Proof.
  destruct v as [n|s|], g; simpl; try (split; [done|discriminate]).
  all: try (rewrite Z.eqb_eq; split; [by intros ->|by intros [= ->]]).
  all: try (rewrite String.eqb_eq; split; [by intros ->|by intros [= ->]]).
Qed.

(** X1: [url_api_version] returns a URL exactly for the versions 1, 2,
    [was] and [am], and the URL is [https://], the server and the path of
    the version; every other value, [False] included, raises the
    unknown-version exception that carries the value. *)
Theorem url_api_version_known (server : string) (v : api_version) :
  (∀ u, url_api_version server v = Return u ↔
        ∃ g, v = tag g ∧ u = "https://" +:+ server +:+ base_path g) ∧
  (∀ e, url_api_version server v = Raise e ↔
        (∀ g, v ≠ tag g) ∧ e = UnknownVersion v).
Proof.
  unfold url_api_version.
  destruct (version_eqb v (VInt 1)) eqn:E1.
  { apply (version_eqb_tag v GenV1) in E1 as ->. split; intros x; split.
    - intros [= <-]. by exists GenV1.
    - by intros ([] & [=] & ->).
    - done.
    - intros [Hg _]. by destruct (Hg GenV1). }
  destruct (version_eqb v (VInt 2)) eqn:E2.
  { apply (version_eqb_tag v GenV2) in E2 as ->. split; intros x; split.
    - intros [= <-]. by exists GenV2.
    - by intros ([] & [=] & ->).
    - done.
    - intros [Hg _]. by destruct (Hg GenV2). }
  destruct (version_eqb v (VStr "was")) eqn:E3.
  { apply (version_eqb_tag v GenWebApp) in E3 as ->. split; intros x; split.
    - intros [= <-]. by exists GenWebApp.
    - by intros ([] & [=] & ->).
    - done.
    - intros [Hg _]. by destruct (Hg GenWebApp). }
  destruct (version_eqb v (VStr "am")) eqn:E4.
  { apply (version_eqb_tag v GenAssetMgmt) in E4 as ->. split; intros x; split.
    - intros [= <-]. by exists GenAssetMgmt.
    - by intros ([] & [=] & ->).
    - done.
    - intros [Hg _]. by destruct (Hg GenAssetMgmt). }
  assert (Hg : ∀ g, v ≠ tag g).
  { intros g Hv. apply (version_eqb_tag v g) in Hv. destruct g; simpl in Hv; congruence. }
  split; intros x; split.
  - done.
  - intros (g & Hv & _). by destruct (Hg g).
  - by intros [= <-].
  - by intros [_ ->].
Qed.

(** ** Stripping the call *)

Lemma lstrip_id (c : ascii) (s : string) :
  (∀ t, s ≠ String c t) → Py.lstrip c s = s.
Proof.
  destruct s as [|a s]; [done|]. intros Hs. simpl.
  destruct (Ascii.eqb a c) eqn:E; [|done].
  apply ascii_eqb_true in E as ->. by destruct (Hs s).
Qed.

Lemma rstrip_id (c : ascii) (s : string) :
  (∀ t, s ≠ t +:+ String c "") → Py.rstrip c s = s.
Proof.
  induction s as [|a s IH]; [done|]. intros Hs. simpl.
  destruct s as [|b s].
  - simpl. destruct (Ascii.eqb a c) eqn:E; [|done].
    apply ascii_eqb_true in E as ->. by destruct (Hs "").
  - rewrite IH; [done|]. intros t Ht. apply (Hs (String a t)).
    by rewrite str_app_cons, <- Ht.
Qed.

Lemma preformat_call_fixed (raw : string) :
  Py.lstrip "/" (preformat_call raw) = preformat_call raw ∧
  Py.rstrip "?" (preformat_call raw) = preformat_call raw.
Proof.
  destruct (preformat_call_spec raw) as (_ & Hfst & Hlst).
  split; [by apply lstrip_id|by apply rstrip_id].
Qed.

(** X2: stripping is idempotent, and [request] may strip twice: the call
    that [preformat_call] has stripped is formatted by [format_call]
    exactly as the raw call is. *)
Theorem preformat_call_idempotent (self : QGConnector) (v : api_version)
    (raw : string) :
  preformat_call (preformat_call raw) = preformat_call raw ∧
  format_call self v (preformat_call raw) = format_call self v raw.
Proof.
  destruct (preformat_call_fixed raw) as [Hl Hr].
  assert (Hpp : preformat_call (preformat_call raw) = preformat_call raw).
  { unfold preformat_call at 1. by rewrite Hl, Hr. }
  split; [done|].
  unfold format_call. fold (preformat_call (preformat_call raw)).
  fold (preformat_call raw). by rewrite Hpp.
Qed.

(** X3: [format_call] fails in one situation only: version 2 and a call
    that is empty once stripped, where [api_call[-1]] raises [IndexError];
    in every other case it returns a string. *)
Theorem format_call_failure (self : QGConnector) (v : api_version)
    (raw : string) (e : exn) :
  format_call self v raw = Raise e ↔
  version_eqb v (VInt 2) = true ∧ preformat_call raw = "" ∧ e = IndexError.
Proof.
  unfold format_call. fold (preformat_call raw).
  destruct (version_eqb v (VInt 2)).
  - destruct (Py.last_char (preformat_call raw)) as [c|e'] eqn:El; simpl.
    + split; [done|]. intros (_ & Hs & _). by rewrite Hs in El.
    + destruct (preformat_call raw) as [|a s] eqn:Es.
      * simpl in El. injection El as <-. split; [by intros [= <-]|].
        by intros (_ & _ & ->).
      * destruct (last_char_spec (String a s)) as (t & c & _ & Hc); [done|].
        congruence.
  - simpl. split; [done|]. by intros [? _].
Qed.

(** ** Transcoding *)

Lemma in_versions_disjoint (v : api_version) :
  in_versions v [VInt 1; VInt 2] = true →
  in_versions v [VStr "am"; VStr "was"] = false.
Proof. by destruct v. Qed.

(** X4: transcoding twice is transcoding once: what [format_payload]
    returns is left unchanged by [format_payload] for the same version. *)
Theorem format_payload_idempotent `{Lxml} (v : api_version) (data : payload) :
  format_payload v (format_payload v data) = format_payload v data.
Proof.
  unfold format_payload.
  destruct (in_versions v [VInt 1; VInt 2]) eqn:E12.
  { by destruct data. }
  destruct (in_versions v [VStr "am"; VStr "was"]); by destruct data.
Qed.

(** X5: [format_payload] changes a string under versions 1 and 2 and an
    element under [am] and [was], and nothing else: under versions 1 and 2
    the result is never a string, under [am] and [was] it is never an
    element, and under any other version the payload is returned as it
    is. *)
Theorem format_payload_shape `{Lxml} (v : api_version) (data : payload) :
  (in_versions v [VInt 1; VInt 2] = true →
     (∀ s, format_payload v data ≠ PStr s) ∧
     ((∀ s, data ≠ PStr s) → format_payload v data = data)) ∧
  (in_versions v [VStr "am"; VStr "was"] = true →
     (∀ x, format_payload v data ≠ PXml x) ∧
     ((∀ x, data ≠ PXml x) → format_payload v data = data)) ∧
  (in_versions v [VInt 1; VInt 2] = false →
   in_versions v [VStr "am"; VStr "was"] = false →
     format_payload v data = data).
Proof.
  unfold format_payload. split; [|split].
  - intros ->. split; [by destruct data|].
    intros Hs. destruct data as [s| |]; [by destruct (Hs s)|done..].
  - intros E. destruct (in_versions v [VInt 1; VInt 2]) eqn:E12.
    { apply in_versions_disjoint in E12. congruence. }
    rewrite E. split; [by destruct data|].
    intros Hx. destruct data as [| |x]; [done..|by destruct (Hx x)].
  - by intros -> ->.
Qed.

Lemma format_payload_shape_witness :
  format_payload (tag GenV1) (@PXml sample_lxml (Leaf "ServiceRequest"))
    = @PXml sample_lxml (Leaf "ServiceRequest") ∧
  format_payload (tag GenWebApp) (PStr "<ServiceRequest/>")
    = PStr "<ServiceRequest/>" ∧
  format_payload VFalse (PStr "?a=1") = PStr "?a=1".
Proof.
  split_and!.
  - destruct (format_payload_shape (tag GenV1) (@PXml sample_lxml (Leaf "ServiceRequest")))
      as (H12 & _). by apply (H12 eq_refl).
  - destruct (format_payload_shape (tag GenWebApp) (PStr "<ServiceRequest/>"))
      as (_ & Hp & _). by apply (Hp eq_refl).
  - destruct (format_payload_shape VFalse (PStr "?a=1")) as (_ & _ & Hid).
    by apply Hid.
Defined.

Lemma unquote_nonempty (s : string) : s ≠ "" → Urlparse.unquote s ≠ "".
Proof.
  destruct s as [|c s1]; [done|]. intros _. simpl.
  destruct (Ascii.eqb c "%"); [|done].
  destruct s1 as [|h [|l r]]; try done.
  by destruct (Urlparse.hexval h), (Urlparse.hexval l).
Qed.

Lemma replace_nonempty (a b : ascii) (s : string) :
  s ≠ "" → Py.replace a b s ≠ "".
Proof. by destruct s. Qed.

Lemma parse_qsl_value_nonempty (qs : string) (nv : string * string) :
  nv ∈ Urlparse.parse_qsl qs → nv.2 ≠ "".
Proof.
  unfold Urlparse.parse_qsl. intros (name_value & Hnv & _)%list_elem_of_bind.
  destruct (Py.truthy_str name_value); cbv beta iota delta [negb] in Hnv;
    [|by apply elem_of_nil in Hnv].
  destruct (Py.split1 "=" name_value) as [[n v]|]; cbv beta iota in Hnv;
    [|by apply elem_of_nil in Hnv].
  destruct (Py.truthy_str v) eqn:Ev; [|by apply elem_of_nil in Hnv].
  apply list_elem_of_singleton in Hnv as ->. cbn [snd].
  apply unquote_nonempty, replace_nonempty. by destruct v.
Qed.

Lemma values_of_elem_of (k v : string) (l : list (string * string)) :
  v ∈ values_of k l → (k, v) ∈ l.
Proof.
  unfold values_of. intros ([k' v'] & -> & Hin)%list_elem_of_fmap.
  apply list_elem_of_filter in Hin as [Hk Hin]. simpl in *. by subst.
Qed.

Lemma parse_qs_values (qs k : string) (vs : list string) :
  Urlparse.parse_qs qs !! k = Some vs →
  vs ≠ [] ∧ ∀ v, v ∈ vs → (k, v) ∈ Urlparse.parse_qsl qs ∧ v ≠ "".
Proof.
  rewrite parse_qs_lookup.
  destruct (values_of k (Urlparse.parse_qsl qs)) as [|v0 vs0] eqn:E; [done|].
  intros [= <-]. split; [done|]. intros v Hv. rewrite <- E in Hv.
  apply values_of_elem_of in Hv. split; [done|].
  by apply (parse_qsl_value_nonempty _ _ Hv).
Qed.

(** X6: [parse_qs] never yields an empty list of values nor a blank
    value: every name it holds has at least one value, and every value is
    a non-empty string that occurs with that name in the query. *)
Theorem parse_qs_no_blank (qs k : string) (vs : list string) :
  Urlparse.parse_qs qs !! k = Some vs →
  vs ≠ [] ∧ ∀ v, v ∈ vs → (k, v) ∈ Urlparse.parse_qsl qs ∧ v ≠ "".
Proof. apply parse_qs_values. Qed.

Lemma parse_qs_no_blank_witness :
  Urlparse.parse_qs "a=&b=1&c&b=2" !! "b" = Some ["1"; "2"] ∧
  Urlparse.parse_qs "a=&b=1&c&b=2" !! "a" = None ∧
  ("b", "2") ∈ Urlparse.parse_qsl "a=&b=1&c&b=2".
Proof.
  assert (Hb : Urlparse.parse_qs "a=&b=1&c&b=2" !! "b" = Some ["1"; "2"]).
  { vm_compute. reflexivity. }
  split_and!; [exact Hb|vm_compute; reflexivity|].
  destruct (parse_qs_no_blank "a=&b=1&c&b=2" "b" ["1"; "2"] Hb) as [_ Hv].
  apply Hv. repeat constructor.
Defined.

(** X7: a string payload under versions 1 and 2 never makes the
    subprocess branch fail: the loop [data[i] = data[i][0]] finds a first
    value for every name, and [-d] carries each name with that value. *)
Theorem curl_data_query_string `{Lxml} (g : generation) (s : string) :
  g = GenV1 ∨ g = GenV2 →
  curl_data (format_payload (tag g) (PStr s)) =
    Return (Urllib.urlencode
              ((λ vs, default "" (head vs)) <$>
                 Urlparse.parse_qs (Py.rstrip "&" (Py.lstrip "?" s)))).
Proof.
  intros Hg.
  assert (format_payload (tag g) (PStr s) =
          PDict (DList <$> Urlparse.parse_qs (Py.rstrip "&" (Py.lstrip "?" s))))
    as -> by (by destruct Hg as [-> | ->]).
  simpl. unfold first_values. rewrite bool_decide_eq_true_2.
  - simpl. by rewrite <- map_fmap_compose.
  - intros k v. rewrite lookup_fmap. intros (vs & Hvs & ->)%fmap_Some.
    apply parse_qs_values in Hvs as [Hne _]. congruence.
Qed.

Lemma curl_data_query_string_witness :
  curl_data (format_payload (tag GenV2) (PStr "?action=list&ids=1&ids=2"))
    = Return "ids=1&action=list".
Proof.
  rewrite (curl_data_query_string GenV2 "?action=list&ids=1&ids=2"
             (or_intror eq_refl)).
  vm_compute. reflexivity.
Defined.

(** ** Encoding and decoding a query *)

Lemma unquote_quote_plus_cons (a : ascii) (s : string) :
  Urlparse.unquote (Py.replace "+" " " (Urllib.quote_plus (String a s)))
    = String a (Urlparse.unquote (Py.replace "+" " " (Urllib.quote_plus s))).
Proof. destruct a as [[] [] [] [] [] [] [] []]; reflexivity. Qed.

Lemma unquote_quote_plus_id (s : string) :
  Urlparse.unquote (Py.replace "+" " " (Urllib.quote_plus s)) = s.
Proof.
  induction s as [|a s IH]; [done|]. by rewrite unquote_quote_plus_cons, IH.
Qed.

Lemma all_chars_app (P : ascii → bool) (s t : string) :
  all_chars P (s +:+ t) = all_chars P s && all_chars P t.
Proof.
  induction s as [|a s IH]; [done|].
  rewrite str_app_cons. simpl. by rewrite IH, andb_assoc.
Qed.

Lemma quote_plus_lacks_cons (c a : ascii) (s : string) :
  c = "&"%char ∨ c = ";"%char ∨ c = "="%char →
  all_chars (λ x, negb (Ascii.eqb x c)) (Urllib.quote_plus (String a s))
    = all_chars (λ x, negb (Ascii.eqb x c)) (Urllib.quote_plus s).
Proof.
  intros [-> | [-> | ->]]; destruct a as [[] [] [] [] [] [] [] []]; reflexivity.
Qed.

Lemma quote_plus_lacks (c : ascii) (s : string) :
  c = "&"%char ∨ c = ";"%char ∨ c = "="%char → lacks c (Urllib.quote_plus s).
Proof.
  intros Hc. unfold lacks. induction s as [|a s IH]; [done|].
  by rewrite quote_plus_lacks_cons.
Qed.

Lemma quote_plus_nonempty (s : string) :
  Py.truthy_str (Urllib.quote_plus s) = Py.truthy_str s.
Proof.
  destruct s as [|a s]; [done|]. simpl.
  destruct (Urllib.always_safe a); [done|]. by destruct (Ascii.eqb a " ").
Qed.

(** X8: decoding undoes encoding: for every string, replacing [+] by a
    blank in its [quote_plus] form and unquoting the result gives the
    string back; the encoded form holds none of the separators [&], [;]
    and [=], and it is empty only for the empty string. *)
Theorem quote_plus_round_trip (s : string) :
  Urlparse.unquote (Py.replace "+" " " (Urllib.quote_plus s)) = s ∧
  lacks "&" (Urllib.quote_plus s) ∧ lacks ";" (Urllib.quote_plus s) ∧
  lacks "=" (Urllib.quote_plus s) ∧
  (Urllib.quote_plus s = "" ↔ s = "").
Proof.
  split_and!.
  - apply unquote_quote_plus_id.
  - apply quote_plus_lacks. auto.
  - apply quote_plus_lacks. auto.
  - apply quote_plus_lacks. auto.
  - pose proof (quote_plus_nonempty s) as Ht.
    destruct s as [|a s]; [done|]. split; [|done].
    intros Hq. rewrite Hq in Ht. done.
Qed.

Lemma split_lacks (c : ascii) (x : string) : lacks c x → Py.split c x = [x].
Proof.
  unfold lacks. induction x as [|a x IH]; [done|]. simpl.
  intros [Ha Hx]%andb_true_iff. apply negb_true_iff in Ha. rewrite Ha.
  by rewrite (IH Hx).
Qed.

Lemma split_app (c : ascii) (x rest : string) :
  lacks c x → Py.split c (x +:+ String c rest) = x :: Py.split c rest.
Proof.
  unfold lacks. induction x as [|a x IH].
  - intros _. rewrite str_app_nil_l. simpl. by rewrite Ascii.eqb_refl.
  - simpl. intros [Ha Hx]%andb_true_iff. apply negb_true_iff in Ha.
    rewrite ?str_app_cons. simpl. by rewrite Ha, (IH Hx).
Qed.

Lemma split_join (c : ascii) (l : list string) :
  l ≠ [] → Forall (lacks c) l → Py.split c (Urllib.join (String c "") l) = l.
Proof.
  induction l as [|x l IH]; [done|]. intros _ Hl.
  apply Forall_cons in Hl as [Hx Hl].
  destruct l as [|y l]; [by apply split_lacks|].
  change (Urllib.join (String c "") (x :: y :: l))
    with (x +:+ String c "" +:+ Urllib.join (String c "") (y :: l)).
  rewrite str_app_cons, str_app_nil_l, split_app by done.
  by rewrite IH.
Qed.

Lemma split1_app (c : ascii) (x y : string) :
  lacks c x → Py.split1 c (x +:+ String c y) = Some (x, y).
Proof.
  unfold lacks. induction x as [|a x IH].
  - intros _. rewrite str_app_nil_l. simpl. by rewrite Ascii.eqb_refl.
  - simpl. intros [Ha Hx]%andb_true_iff. apply negb_true_iff in Ha.
    rewrite ?str_app_cons. simpl. by rewrite Ha, (IH Hx).
Qed.

Lemma bind_split_lacks (c : ascii) (l : list string) :
  Forall (lacks c) l → l ≫= Py.split c = l.
Proof.
  induction l as [|x l IH]; [done|]. intros [Hx Hl]%Forall_cons.
  rewrite bind_cons, (split_lacks _ _ Hx), (IH Hl). done.
Qed.

(** The field [name=value] that [urlencode] writes for one pair. *)
Lemma encoded_pair_lacks (c : ascii) (kv : string * string) :
  c = "&"%char ∨ c = ";"%char →
  lacks c (Urllib.quote_plus kv.1 +:+ "=" +:+ Urllib.quote_plus kv.2).
Proof.
  intros Hc. unfold lacks. rewrite !all_chars_app.
  assert (Hq : ∀ s, all_chars (λ a, negb (Ascii.eqb a c)) (Urllib.quote_plus s) = true).
  { intros s. apply quote_plus_lacks. destruct Hc as [-> | ->]; auto. }
  rewrite !Hq. by destruct Hc as [-> | ->].
Qed.

Lemma parse_qsl_urlencode_list (kvs : list (string * string)) :
  Forall (λ kv, kv.2 ≠ "") kvs →
  Urlparse.parse_qsl
    (Urllib.join "&" ((λ kv, Urllib.quote_plus kv.1 +:+ "=" +:+ Urllib.quote_plus kv.2)
                        <$> kvs))
    = kvs.
Proof.
  intros Hv. unfold Urlparse.parse_qsl.
  destruct kvs as [|kv0 kvs0]; [done|].
  set (kvs := kv0 :: kvs0) in *.
  set (enc := λ kv : string * string,
                Urllib.quote_plus kv.1 +:+ "=" +:+ Urllib.quote_plus kv.2).
  rewrite (split_join "&").
  - rewrite bind_split_lacks.
    + clearbody kvs. clear kv0 kvs0.
      induction kvs as [|kv kvs IH]; [done|].
      apply Forall_cons in Hv as [Hkv Hv].
      rewrite fmap_cons, bind_cons, (IH Hv).
      unfold enc.
      assert (Ht : Py.truthy_str (Urllib.quote_plus kv.1 +:+ "=" +:+
                                  Urllib.quote_plus kv.2) = true).
      { destruct (Urllib.quote_plus kv.1); reflexivity. }
      rewrite Ht. cbv beta iota delta [negb].
      change ("=" +:+ Urllib.quote_plus kv.2)
        with (String "=" (Urllib.quote_plus kv.2)).
      rewrite split1_app by (apply quote_plus_lacks; auto).
      cbv beta iota. rewrite quote_plus_nonempty.
      destruct kv as [k v]. simpl in *. destruct v; [done|].
      cbn [Py.truthy_str]. by rewrite !unquote_quote_plus_id.
    + apply Forall_fmap, Forall_true. intros kv. apply encoded_pair_lacks. auto.
  - done.
  - apply Forall_fmap, Forall_true. intros kv. apply encoded_pair_lacks. auto.
Qed.

Lemma values_of_nodup (k : string) (l : list (string * string)) :
  NoDup l.*1 →
  values_of k l = match list_to_map (M := gmap string string) l !! k with
                  | Some v => [v]
                  | None => []
                  end.
Proof.
  induction l as [|[k' v'] l IH]; [done|].
  rewrite fmap_cons. intros [Hk' Hnd]%NoDup_cons. simpl in Hk'.
  rewrite values_of_cons. cbn [fst snd list_to_map foldr].
  change (foldr (λ '(i, a), <[i:=a]>) ∅ l) with (list_to_map (M := gmap string string) l) in *.
  case_decide as Hk.
  - subst k'. rewrite lookup_insert_eq, (IH Hnd).
    by rewrite (not_elem_of_list_to_map_1 _ _ Hk').
  - rewrite lookup_insert_ne by done. by apply IH.
Qed.

(** X9: what [urlencode] writes, [parse_qsl] and [parse_qs] read back: for
    a mapping of strings without blank values, the encoded query decodes
    to the pairs of the mapping, each name with its one value. *)
Theorem parse_qs_urlencode (d : gmap string string) :
  (∀ k v, d !! k = Some v → v ≠ "") →
  Urlparse.parse_qsl (Urllib.urlencode d) = map_to_list d ∧
  Urlparse.parse_qs (Urllib.urlencode d) = (λ v, [v]) <$> d.
Proof.
  intros Hd.
  assert (Hl : Urlparse.parse_qsl (Urllib.urlencode d) = map_to_list d).
  { unfold Urllib.urlencode. apply parse_qsl_urlencode_list.
    apply Forall_forall. intros [k v] Hkv%elem_of_map_to_list. by eapply Hd. }
  split; [done|].
  apply map_eq. intros k.
  rewrite parse_qs_lookup, Hl, lookup_fmap.
  rewrite values_of_nodup by apply NoDup_fst_map_to_list.
  rewrite list_to_map_to_list. by destruct (d !! k).
Qed.

Lemma parse_qs_urlencode_witness :
  Urlparse.parse_qs (Urllib.urlencode {[ "title" := "a b&c=d"; "ids" := "1" ]})
    = {[ "title" := ["a b&c=d"]; "ids" := ["1"] ]}.
Proof.
  destruct (parse_qs_urlencode {[ "title" := "a b&c=d"; "ids" := "1" ]}) as [_ ->].
  - intros k v Hkv.
    apply lookup_insert_Some in Hkv as [[_ <-]|[_ Hkv]]; [done|].
    apply lookup_singleton_Some in Hkv as [_ <-]. done.
  - vm_compute. reflexivity.
Defined.

(** ** The rate-limit mapping *)

(** X10: a recorded count can be read back: after a response whose header
    [int()] accepts, both reads of the call give that number, the
    subscript read no longer changes the mapping, and the entries of all
    other calls are as before. *)
Theorem record_rate_limit_lookup (m : gmap string Z) (api_call : string)
    (r : response) (s : string) (n : Z) :
  headers r !! "x-ratelimit-remaining" = Some (HText s) → Py.int s = Return n →
  ∃ m', record_rate_limit m api_call r = Return m' ∧
        rate_limit_get m' api_call = Some n ∧
        rate_limit_getitem m' api_call = (n, m') ∧
        ∀ k, k ≠ api_call → m' !! k = m !! k.
Proof.
  intros Hh Hn. exists (<[api_call := n]> m).
  rewrite (record_rate_limit_numeric _ _ _ _ _ Hh Hn).
  unfold rate_limit_get, rate_limit_getitem. rewrite lookup_insert_eq.
  split_and!; [done..|]. intros k Hk. by rewrite lookup_insert_ne.
Qed.

Lemma record_rate_limit_lookup_witness :
  ∃ m', record_rate_limit {[ "scan.php" := 3 ]} "count/am/tag" ok_response
          = Return m' ∧
        rate_limit_get m' "count/am/tag" = Some 42 ∧
        m' !! "scan.php" = Some 3.
Proof.
  destruct (record_rate_limit_lookup {[ "scan.php" := 3 ]} "count/am/tag"
              ok_response "42" 42) as (m' & Hrec & Hget & _ & Hother).
  - vm_compute. reflexivity.
  - reflexivity.
  - exists m'. split_and!; [done..|]. by rewrite Hother.
Defined.

(** X11: a subscript read never changes a count that is stored: it
    returns the stored count, or stores and returns 0; afterwards the key
    is present, every other key is as before, and a second read returns
    the same number and changes nothing. *)
Theorem rate_limit_getitem_stable (m : gmap string Z) (k : string) :
  let v := (rate_limit_getitem m k).1 in
  let m' := (rate_limit_getitem m k).2 in
  v = default 0 (m !! k) ∧
  m' !! k = Some v ∧
  (∀ k', k' ≠ k → m' !! k' = m !! k') ∧
  m ⊆ m' ∧
  rate_limit_getitem m' k = (v, m').
Proof.
  unfold rate_limit_getitem. destruct (m !! k) as [n|] eqn:E; simpl.
  - rewrite E. split_and!; done.
  - rewrite lookup_insert_eq. split_and!; try done.
    + intros k' Hk'. by rewrite lookup_insert_ne.
    + by apply insert_subseteq.
Qed.

(** ** Exceptions and events of a request *)

Lemma strip_v_raises (s : string) (e : exn) :
  strip_v s = Raise e → e = IndexError.
Proof.
  unfold strip_v, Py.index.
  destruct (String.get 0 s) as [c0|]; simpl; [|by intros [= <-]].
  destruct (Ascii.eqb c0 "v"); [|done].
  destruct (String.get 1 s); simpl; [done|by intros [= <-]].
Qed.

Lemma format_api_version_raises (h : hint) (e : exn) :
  format_api_version h = Raise e → e = IndexError ∨ e = ValueError.
Proof.
  destruct h as [s|n]; [|done]. unfold format_api_version.
  destruct (strip_v (Py.lower s)) as [t|e'] eqn:Es; simpl.
  - repeat case_match; try done.
    destruct (Py.int t) as [n|e''] eqn:Ei; simpl; [done|].
    intros [= <-]. right. by eapply int_raises_value_error.
  - intros [= <-]. left. by eapply strip_v_raises.
Qed.

Lemma url_api_version_return (server : string) (v : api_version) (u : string) :
  url_api_version server v = Return u →
  ∃ g, v = tag g ∧ u = "https://" +:+ server +:+ base_path g.
Proof.
  unfold url_api_version.
  destruct (version_eqb v (VInt 1)) eqn:E1.
  { apply (version_eqb_tag v GenV1) in E1. intros [= <-]. by exists GenV1. }
  destruct (version_eqb v (VInt 2)) eqn:E2.
  { apply (version_eqb_tag v GenV2) in E2. intros [= <-]. by exists GenV2. }
  destruct (version_eqb v (VStr "was")) eqn:E3.
  { apply (version_eqb_tag v GenWebApp) in E3. intros [= <-]. by exists GenWebApp. }
  destruct (version_eqb v (VStr "am")) eqn:E4; [|done].
  apply (version_eqb_tag v GenAssetMgmt) in E4. intros [= <-]. by exists GenAssetMgmt.
Qed.

(** Everything [prepare] computes on success. *)
Lemma prepare_return `{Lxml} (version : string) (self : QGConnector)
    (api_call : string) (data : option payload) (h : option hint)
    (m : option string) (p : prepared) :
  prepare version self api_call data h m = Return p →
  ∃ g,
    p_version p = tag g ∧
    resolved_version api_call h = Return (tag g) ∧
    format_call self (tag g) (preformat_call api_call) = Return (p_call p) ∧
    p_url p = "https://" +:+ server self +:+ base_path g +:+ p_call p ∧
    p_headers p = request_headers version (tag g) ∧
    p_method p = (if method_truthy m then default "" m
                  else format_http_method self (tag g) (preformat_call api_call) data) ∧
    p_data p = format_payload (tag g) <$> data.
Proof.
  unfold prepare. fold (resolved_version api_call h).
  destruct (resolved_version api_call h) as [v|]; [|done]. simpl.
  destruct (url_api_version (server self) v) as [url|] eqn:Eu; [|done]. simpl.
  destruct (format_call self v (preformat_call api_call)) as [c|] eqn:Ec; [|done].
  simpl. intros [= <-]. simpl.
  apply url_api_version_return in Eu as (g & -> & ->).
  exists g. split_and!; try done.
  by rewrite !str_app_assoc.
Qed.

Lemma prepare_raises `{Lxml} (version : string) (self : QGConnector)
    (api_call : string) (data : option payload) (h : option hint)
    (m : option string) (e : exn) :
  prepare version self api_call data h m = Raise e →
  e = IndexError ∨ e = ValueError ∨ ∃ v, e = UnknownVersion v.
Proof.
  unfold prepare. fold (resolved_version api_call h).
  destruct (resolved_version api_call h) as [v|e'] eqn:Ev; simpl.
  - destruct (url_api_version (server self) v) as [url|e''] eqn:Eu; simpl.
    + destruct (format_call self v (preformat_call api_call)) as [c|e3] eqn:Ec;
        simpl; [done|].
      intros [= <-]. left.
      unfold format_call in Ec.
      destruct (version_eqb v (VInt 2)); simpl in Ec; [|done].
      destruct (Py.last_char _) eqn:El; simpl in Ec; [done|].
      injection Ec as <-.
      destruct (Py.rstrip "?" (Py.lstrip "/" (preformat_call api_call))) as [|a s] eqn:Es.
      * simpl in El. by injection El as <-.
      * destruct (last_char_spec (String a s)) as (t & c & _ & Hc); [done|].
        congruence.
    + intros [= <-]. right. right. unfold url_api_version in Eu.
      repeat case_match; try done. injection Eu as <-. eauto.
  - intros [= <-]. unfold resolved_version in Ev.
    destruct (hint_truthy h); [|done]. destruct h as [x|]; [|done].
    destruct (format_api_version_raises _ _ Ev); auto.
Qed.

Lemma curl_command_raises `{Lxml} (self : QGConnector) (url : string)
    (hdrs : gmap string string) (data : option payload) (e : exn) :
  curl_command self url hdrs data = Raise e →
  (e = TypeError ∧ ∃ x, data = Some (PXml x) ∧ element_bool x = true) ∨
  (e = IndexError ∧ ∃ d k, data = Some (PDict d) ∧ d !! k = Some (DList [])) ∨
  (e = KeyError ∧ ∃ px, proxies self = Some px ∧ px ≠ ∅ ∧ px !! "https" = None).
Proof.
  unfold curl_command.
  set (c0 := foldl _ _ _). clearbody c0.
  assert (Hproxy : ∀ c,
    (if proxies_truthy (proxies self)
     then p ← proxies_https (default ∅ (proxies self));
          Return (curl_insert c ["--proxy"; p])
     else Return c) = Raise e →
    e = KeyError ∧ ∃ px, proxies self = Some px ∧ px ≠ ∅ ∧ px !! "https" = None).
  { intros c. destruct (proxies self) as [px|]; simpl; [|done].
    destruct (decide (px = ∅)) as [->|Hpx].
    { by rewrite bool_decide_eq_true_2. }
    rewrite bool_decide_eq_false_2 by done. simpl. unfold proxies_https.
    destruct (px !! "https") eqn:Eh; simpl; [done|].
    intros [= <-]. split; [done|]. by exists px. }
  destruct (data_truthy data) eqn:Et.
  - destruct data as [[s|d|x]|]; simpl.
    + intros He. right. right. by eapply Hproxy.
    + unfold first_values. case_bool_decide as Hall; simpl.
      * intros He. right. right. by eapply Hproxy.
      * intros [= <-]. right. left. split; [done|].
        apply map_not_Forall in Hall; [|apply _].
        destruct Hall as (k & v & Hk & Hv). exists d, k. split; [done|].
        destruct (decide (v = DList [])) as [->|]; [done|]. by destruct Hv.
    + intros [= <-]. left. split; [done|]. by exists x.
    + done.
  - simpl. intros He. right. right. by eapply Hproxy.
Qed.

Lemma record_rate_limit_raises (m : gmap string Z) (api_call : string)
    (r : response) (e : exn) :
  record_rate_limit m api_call r = Raise e →
  e = ValueError ∧
  ∃ s, headers r !! "x-ratelimit-remaining" = Some (HText s) ∧
       Py.int s = Raise ValueError.
Proof.
  unfold record_rate_limit, header_getitem.
  destruct (headers r !! "x-ratelimit-remaining") as [[s|]|] eqn:Eh; simpl;
    [|done..].
  destruct (Py.int s) as [n|e'] eqn:En; simpl; [done|].
  pose proof (int_raises_value_error _ _ En) as ->.
  intros [= <-]. split; [done|]. by exists s.
Qed.

Lemma raise_for_status_return (r : response) :
  raise_for_status r = Return () ↔ ¬ failing_status r.
Proof.
  unfold raise_for_status, failing_status.
  destruct (400 <=? status_code r) eqn:E1; destruct (status_code r <? 600) eqn:E2;
    simpl; (split; [intros ?|intros ?]); try done; try lia.
  all: try (apply Z.leb_gt in E1); try (apply Z.ltb_ge in E2);
    try (apply Z.leb_le in E1); try (apply Z.ltb_lt in E2); try lia.
  all: exfalso; lia.
Qed.

Lemma raise_for_status_raise (r : response) (e : exn) :
  raise_for_status r = Raise e ↔
  failing_status r ∧ e = HTTPError (status_code r) (content r).
Proof.
  unfold raise_for_status, failing_status.
  destruct (400 <=? status_code r) eqn:E1; destruct (status_code r <? 600) eqn:E2;
    simpl.
  - apply Z.leb_le in E1. apply Z.ltb_lt in E2. split.
    + intros [= <-]. split; [lia|done].
    + by intros [_ ->].
  - apply Z.ltb_ge in E2. split; [done|]. intros [? _]. lia.
  - apply Z.leb_gt in E1. split; [done|]. intros [? _]. lia.
  - apply Z.leb_gt in E1. split; [done|]. intros [? _]. lia.
Qed.

Lemma set_rate_limit_same (self : QGConnector) :
  set_rate_limit self (rate_limit_remaining self) = self.
Proof. by destruct self. Qed.

(** What the direct branch does with the prepared request. *)
Lemma request_direct_run `{Lxml} (net : Transport) (self : QGConnector)
    (p : prepared) :
  let c := {| hc_url := p_url p; hc_data := p_data p; hc_auth := auth self;
              hc_headers := p_headers p; hc_proxies := proxies self |} in
  let r := request_direct net self p in
  ∃ ev resp,
    trace r = [ev] ∧ event_response net ev = Some resp ∧
    (p_method p = "get" ∧ ev = EvGet c ∨ p_method p ≠ "get" ∧ ev = EvPost c) ∧
    match record_rate_limit (rate_limit_remaining self) (p_call p) resp with
    | Raise e => outcome r = Raise e ∧ self_after r = self
    | Return m' =>
        self_after r = set_rate_limit self m' ∧
        outcome r = (_ ← raise_for_status resp; Return (Content (content resp)))
    end.
Proof.
  intros c r. subst r. unfold request_direct. fold c.
  destruct (String.eqb (p_method p) "get") eqn:Em.
  - apply String.eqb_eq in Em.
    exists (EvGet c), (requests_get net c).
    destruct (record_rate_limit _ _ (requests_get net c)); simpl; split_and!; auto.
  - apply String.eqb_neq in Em.
    exists (EvPost c), (requests_post net c).
    destruct (record_rate_limit _ _ (requests_post net c)); simpl; split_and!; auto.
Qed.

Lemma request_self_after `{Lxml} (version : string) (net : Transport)
    (self : QGConnector) (api_call : string) (data : option payload)
    (h : option hint) (m : option string) :
  let r := request version net self api_call data h m in
  self_after r = set_rate_limit self (rate_limit_remaining (self_after r)).
Proof.
  intros r. subst r. unfold request.
  destruct (prepare version self api_call data h m) as [p|e]; simpl;
    [|by rewrite set_rate_limit_same].
  destruct (curl_use_subprocess self).
  - unfold request_subprocess.
    destruct (curl_command _ _ _ _); simpl; by rewrite set_rate_limit_same.
  - destruct (request_direct_run net self p) as (ev & resp & _ & _ & _ & Hrec).
    destruct (record_rate_limit _ _ resp) as [m'|e].
    + by destruct Hrec as [-> _].
    + destruct Hrec as [_ ->]. by rewrite set_rate_limit_same.
Qed.

(** X12: a request changes nothing of the connector but the rate-limit
    mapping, invokes a transport at most once, and when it invokes none
    it has failed and the connector is exactly as before. *)
Theorem request_frame `{Lxml} (version : string) (net : Transport)
    (self : QGConnector) (api_call : string) (data : option payload)
    (h : option hint) (m : option string) :
  let r := request version net self api_call data h m in
  self_after r = set_rate_limit self (rate_limit_remaining (self_after r)) ∧
  (length (trace r) ≤ 1)%nat ∧
  (trace r = [] → self_after r = self ∧ ∃ e, outcome r = Raise e).
Proof.
  intros r. subst r. unfold request.
  destruct (prepare version self api_call data h m) as [p|e]; simpl.
  2: { rewrite set_rate_limit_same. split_and!; [done|lia|eauto]. }
  destruct (curl_use_subprocess self).
  - unfold request_subprocess.
    destruct (curl_command _ _ _ _); simpl; rewrite set_rate_limit_same;
      (split_and!; [done|lia|eauto]). done.
  - destruct (request_direct_run net self p) as (ev & resp & Htr & _ & _ & Hrec).
    rewrite Htr. simpl.
    destruct (record_rate_limit _ _ resp) as [m'|e].
    + destruct Hrec as [-> _]. simpl. split_and!; [done|lia|done].
    + destruct Hrec as [_ ->]. rewrite set_rate_limit_same.
      split_and!; [done|lia|done].
Qed.

(** X13: under the subprocess transport nothing is recorded and no HTTP
    failure surfaces: the connector is left as it was, [requests] is never
    called, and the request neither returns a response body nor raises
    the error of [raise_for_status], whatever the server answered. *)
Theorem request_subprocess_blind `{Lxml} (version : string) (net : Transport)
    (self : QGConnector) (api_call : string) (data : option payload)
    (h : option hint) (m : option string) :
  curl_use_subprocess self = true →
  let r := request version net self api_call data h m in
  self_after r = self ∧
  (∀ ev, ev ∈ trace r → event_response net ev = None) ∧
  (∀ body, outcome r ≠ Return (Content body)) ∧
  (∀ st body, outcome r ≠ Raise (HTTPError st body)).
Proof.
  intros Hc r. subst r. unfold request. rewrite Hc.
  destruct (prepare version self api_call data h m) as [p|e] eqn:Ep; simpl.
  - unfold request_subprocess.
    destruct (curl_command _ _ _ _) as [args|e] eqn:Ecmd; simpl.
    + split_and!; try done. by intros ev ->%list_elem_of_singleton.
    + split_and!; try done.
      * by intros ev ?%elem_of_nil.
      * intros st body [= ->].
        apply curl_command_raises in Ecmd as [[? _]|[[? _]|[? _]]]; done.
  - split_and!; try done.
    + by intros ev ?%elem_of_nil.
    + intros st body [= ->].
      apply prepare_raises in Ep as [?|[?|[? ?]]]; done.
Qed.

Lemma request_subprocess_blind_witness :
  let r := request "4.1.0" (fixed_transport failing_garbled_response) curl_conn
             "asset_search.php" (Some (PStr "ids=1")) None None in
  self_after r = curl_conn ∧ outcome r ≠ Raise (HTTPError 503 "<unavailable/>").
Proof.
  destruct (request_subprocess_blind "4.1.0"
              (fixed_transport failing_garbled_response) curl_conn
              "asset_search.php" (Some (PStr "ids=1")) None None eq_refl)
    as (Hself & _ & _ & Hno).
  split; [exact Hself|apply Hno].
Defined.

(** X14: a connector that [connect] builds from settings without a
    [curl] path never starts a subprocess, whatever the subprocess flag of
    the settings says, and it starts with no recorded rate limit. *)
Theorem connect_without_curl_path `{Lxml} (version : string) (net : Transport)
    (conf : QualysConnectConfig) (api_call : string) (data : option payload)
    (h : option hint) (m : option string) :
  conf_curl_path conf = None ∨ conf_curl_path conf = Some "" →
  let r := request version net (connect conf) api_call data h m in
  rate_limit_remaining (connect conf) = ∅ ∧
  curl_use_subprocess (self_after r) = false ∧
  ∀ args, EvCurl args ∉ trace r.
Proof.
  intros Hpath r.
  assert (Hc : curl_use_subprocess (connect conf) = false).
  { unfold connect, init. simpl. by destruct Hpath as [-> | ->]. }
  split; [done|].
  pose proof (request_self_after version net (connect conf) api_call data h m)
    as Hself.
  fold r in Hself. split; [by rewrite Hself|].
  subst r. unfold request. rewrite Hc.
  destruct (prepare _ _ _ _ _ _) as [p|e]; simpl.
  - destruct (request_direct_run net (connect conf) p)
      as (ev & resp & -> & Hresp & _).
    intros args Hin%list_elem_of_singleton. by subst ev.
  - by intros args ?%elem_of_nil.
Qed.

Lemma connect_without_curl_path_witness :
  curl_use_subprocess (connect sample_conf) = false ∧
  ∀ args, EvCurl args ∉
    trace (request "4.1.0" (fixed_transport ok_response) (connect sample_conf)
             "asset_search.php" None None None).
Proof.
  destruct (connect_without_curl_path "4.1.0" (fixed_transport ok_response)
              sample_conf "asset_search.php" None None None
              (or_introl eq_refl)) as (_ & _ & Hno).
  split; [reflexivity|exact Hno].
Defined.

(** X15: on the direct transport a prepared request is sent once, and the
    answer decides the outcome: the body is returned as it is exactly when
    the rate-limit step did not raise and the status is outside 400..599;
    the error of [raise_for_status] carries the status and the body of
    that response; and the only other failure is the [ValueError] of a
    header text that [int()] rejects. *)
Theorem request_direct_outcome `{Lxml} (version : string) (net : Transport)
    (self : QGConnector) (api_call : string) (data : option payload)
    (h : option hint) (m : option string) (p : prepared) :
  curl_use_subprocess self = false →
  prepare version self api_call data h m = Return p →
  let r := request version net self api_call data h m in
  ∃ ev resp,
    trace r = [ev] ∧ event_response net ev = Some resp ∧
    (∀ x, outcome r = Return x ↔
          x = Content (content resp) ∧ ¬ failing_status resp ∧
          ∃ m', record_rate_limit (rate_limit_remaining self) (p_call p) resp
                  = Return m') ∧
    (∀ st body, outcome r = Raise (HTTPError st body) ↔
          st = status_code resp ∧ body = content resp ∧ failing_status resp ∧
          ∃ m', record_rate_limit (rate_limit_remaining self) (p_call p) resp
                  = Return m') ∧
    (∀ e, outcome r = Raise e →
          (∃ st body, e = HTTPError st body) ∨
          e = ValueError ∧
          ∃ s, headers resp !! "x-ratelimit-remaining" = Some (HText s) ∧
               Py.int s = Raise ValueError).
Proof.
  intros Hc Hp r. subst r. unfold request. rewrite Hp, Hc.
  destruct (request_direct_run net self p) as (ev & resp & Htr & Hresp & _ & Hrec).
  exists ev, resp. split; [done|]. split; [done|].
  destruct (record_rate_limit _ _ resp) as [m'|e'] eqn:Er.
  - destruct Hrec as [_ ->].
    destruct (raise_for_status resp) as [[]|e''] eqn:Es; simpl.
    + apply raise_for_status_return in Es. split_and!.
      * intros x. split; [intros [= <-]; eauto|by intros (-> & _)].
      * intros st body. split; [done|]. by intros (_ & _ & ? & _).
      * done.
    + apply raise_for_status_raise in Es as [Hf ->]. split_and!.
      * intros x. split; [done|]. by intros (_ & ? & _).
      * intros st body. split; [intros [= <- <-]; eauto|by intros (-> & -> & _)].
      * intros e [= <-]. left. eauto.
  - destruct Hrec as [-> _].
    apply record_rate_limit_raises in Er as [-> Hs]. split_and!.
    + intros x. split; [done|]. by intros (_ & _ & ? & ?).
    + intros st body. split; [done|]. by intros (_ & _ & _ & ? & ?).
    + intros e [= <-]. by right.
Qed.

Lemma request_direct_outcome_witness :
  outcome (request "4.1.0" (fixed_transport ok_response) sample_conn
             "count/am/tag" None None None) = Return (Content "<ok/>").
Proof.
  destruct (prepare "4.1.0" sample_conn "count/am/tag" None None None)
    as [p|e] eqn:Ep; [|by vm_compute in Ep].
  destruct (request_direct_outcome "4.1.0" (fixed_transport ok_response)
              sample_conn "count/am/tag" None None None p eq_refl Ep)
    as (ev & resp & Htr & Hresp & Hret & _).
  assert (Hr : resp = ok_response).
  { destruct ev; simpl in Hresp; by simplify_eq. }
  subst resp. apply Hret. split; [done|]. split.
  - unfold failing_status. simpl. lia.
  - vm_compute in Ep. injection Ep as <-. eexists. vm_compute. reflexivity.
Defined.

(** ** Verb, headers and address of the dispatched call *)

(** X16: on the direct transport [requests.get] is called exactly when the
    verb in force is the string [get], and [requests.post] for every
    other verb; a verb given by the caller is taken as it is, so [GET] in
    capitals is sent with POST; a verb that is not given is chosen by
    [format_http_method] from the call as stripped, before its trailing
    slash is added, and from the payload before it is transcoded. *)
Theorem request_verb `{Lxml} (version : string) (net : Transport)
    (self : QGConnector) (api_call : string) (data : option payload)
    (h : option hint) (m : option string) (p : prepared) :
  curl_use_subprocess self = false →
  prepare version self api_call data h m = Return p →
  let r := request version net self api_call data h m in
  (p_method p = "get" ↔ ∃ c, trace r = [EvGet c]) ∧
  (p_method p ≠ "get" ↔ ∃ c, trace r = [EvPost c]) ∧
  (∀ verb, m = Some verb → verb ≠ "" → p_method p = verb) ∧
  (m = None ∨ m = Some "" →
     p_method p = format_http_method self (p_version p)
                    (preformat_call api_call) data).
Proof.
  intros Hc Hp r. subst r. unfold request. rewrite Hp, Hc.
  destruct (request_direct_run net self p) as (ev & resp & Htr & _ & Hev & _).
  rewrite Htr.
  destruct (prepare_return _ _ _ _ _ _ _ Hp) as (g & Hv & _ & _ & _ & _ & Hm & _).
  split_and!.
  - split.
    + intros Hget. destruct Hev as [[_ ->]|[Hne _]]; [eauto|done].
    + intros [c [= ->]]. by destruct Hev as [[? _]|[_ ?]].
  - split.
    + intros Hne. destruct Hev as [[Hget _]|[_ ->]]; [done|eauto].
    + intros [c [= ->]]. by destruct Hev as [[_ ?]|[? _]].
  - intros verb -> Hverb. rewrite Hm. by destruct verb.
  - intros [-> | ->]; by rewrite Hm, Hv.
Qed.

Lemma request_verb_witness :
  ∃ c, trace (request "4.1.0" (fixed_transport ok_response) sample_conn
                "count/am/tag" None None (Some "GET")) = [EvPost c].
Proof.
  destruct (prepare "4.1.0" sample_conn "count/am/tag" None None (Some "GET"))
    as [p|e] eqn:Ep; [|by vm_compute in Ep].
  destruct (request_verb "4.1.0" (fixed_transport ok_response) sample_conn
              "count/am/tag" None None (Some "GET") p eq_refl Ep)
    as (_ & Hpost & Hgiven & _).
  apply Hpost. by rewrite (Hgiven "GET" eq_refl).
Defined.

(** X17: every prepared request carries the header [X-Requested-With]
    with the version of the library; [Content-type: text/xml] is added
    exactly for the [am] and [was] versions; no other header is set. *)
Theorem request_header_set `{Lxml} (version : string) (self : QGConnector)
    (api_call : string) (data : option payload) (h : option hint)
    (m : option string) (p : prepared) :
  prepare version self api_call data h m = Return p →
  p_headers p !! "X-Requested-With"
    = Some ("Parag Baxi QualysAPI (python) v" +:+ version) ∧
  (p_headers p !! "Content-type" = Some "text/xml" ↔
     p_version p = tag GenAssetMgmt ∨ p_version p = tag GenWebApp) ∧
  (p_headers p !! "Content-type" = None ↔
     p_version p = tag GenV1 ∨ p_version p = tag GenV2) ∧
  (∀ k, k ≠ "X-Requested-With" → k ≠ "Content-type" → p_headers p !! k = None).
Proof.
  intros Hp.
  destruct (prepare_return _ _ _ _ _ _ _ Hp) as (g & Hv & _ & _ & _ & Hh & _).
  rewrite Hh, Hv. unfold request_headers.
  destruct g; simpl; split_and!;
    rewrite ?lookup_insert_eq, ?lookup_insert_ne, ?lookup_singleton_eq,
            ?lookup_singleton_ne by done;
    try done; try (intuition congruence).
  all: intros k H1 H2;
    by rewrite ?lookup_insert_ne, ?lookup_singleton_ne by done.
Qed.

Lemma request_header_set_witness :
  ∃ p, prepare "4.1.0" sample_conn "count/am/tag" None None None = Return p ∧
       p_headers p !! "Content-type" = Some "text/xml".
Proof.
  destruct (prepare "4.1.0" sample_conn "count/am/tag" None None None)
    as [p|e] eqn:Ep; [|by vm_compute in Ep].
  exists p. split; [done|].
  destruct (request_header_set "4.1.0" sample_conn "count/am/tag" None None None
              p Ep) as (_ & Hxml & _).
  apply Hxml. vm_compute in Ep. injection Ep as <-. by left.
Defined.

Lemma format_call_preformat (self : QGConnector) (v : api_version)
    (raw : string) :
  format_call self v (preformat_call raw) = format_call self v raw.
Proof.
  destruct (preformat_call_fixed raw) as [Hl Hr].
  assert (Hpp : preformat_call (preformat_call raw) = preformat_call raw).
  { unfold preformat_call at 1. by rewrite Hl, Hr. }
  unfold format_call. fold (preformat_call (preformat_call raw)).
  fold (preformat_call raw). by rewrite Hpp.
Qed.

(** X18: every call that reaches [requests] goes to [https://], the
    server, the base path of the resolved version and the formatted call,
    with the credentials and the proxies of the connector unchanged and
    the payload as [format_payload] returns it. *)
Theorem request_address `{Lxml} (version : string) (net : Transport)
    (self : QGConnector) (api_call : string) (data : option payload)
    (h : option hint) (m : option string) (c : http_call) :
  EvGet c ∈ trace (request version net self api_call data h m) ∨
  EvPost c ∈ trace (request version net self api_call data h m) →
  ∃ g call,
    resolved_version api_call h = Return (tag g) ∧
    format_call self (tag g) api_call = Return call ∧
    hc_url c = "https://" +:+ server self +:+ base_path g +:+ call ∧
    hc_data c = format_payload (tag g) <$> data ∧
    hc_auth c = auth self ∧ hc_proxies c = proxies self.
Proof.
  unfold request.
  destruct (prepare version self api_call data h m) as [p|e] eqn:Ep; simpl.
  2: { intros [?%elem_of_nil|?%elem_of_nil]; done. }
  destruct (prepare_return _ _ _ _ _ _ _ Ep)
    as (g & _ & Hres & Hcall & Hurl & _ & _ & Hdata).
  assert (Hfc : format_call self (tag g) api_call = Return (p_call p)).
  { by rewrite <- Hcall, format_call_preformat. }
  destruct (curl_use_subprocess self).
  { unfold request_subprocess. destruct (curl_command _ _ _ _); simpl.
    - intros [Hin|Hin]; by apply list_elem_of_singleton in Hin.
    - intros [?%elem_of_nil|?%elem_of_nil]; done. }
  destruct (request_direct_run net self p) as (ev & resp & Htr & _ & Hev & _).
  rewrite Htr. intros Hin.
  assert (Hc : c = {| hc_url := p_url p; hc_data := p_data p; hc_auth := auth self;
                      hc_headers := p_headers p; hc_proxies := proxies self |}).
  { destruct Hin as [Hin|Hin]; apply list_elem_of_singleton in Hin; subst ev;
      destruct Hev as [[_ Hev]|[_ Hev]]; by simplify_eq. }
  subst c. simpl. exists g, (p_call p). split_and!; done.
Qed.

Lemma request_address_witness :
  ∃ c, trace (request "4.1.0" (fixed_transport ok_response) sample_conn
                "/api/2.0/fo/scan?" (Some (PStr "action=list")) None None)
         = [EvPost c] ∧
       hc_url c = "https://qualysapi.qualys.com/api/2.0/fo/scan/" ∧
       hc_auth c = ("alice", "secret").
Proof.
  destruct (trace (request "4.1.0" (fixed_transport ok_response) sample_conn
                     "/api/2.0/fo/scan?" (Some (PStr "action=list")) None None))
    as [|[c|c|args] [|]] eqn:Etr; try (by vm_compute in Etr).
  exists c. split; [done|].
  destruct (request_address "4.1.0" (fixed_transport ok_response) sample_conn
              "/api/2.0/fo/scan?" (Some (PStr "action=list")) None None c)
    as (g & call & Hres & Hcall & Hurl & _ & Hauth & _).
  { right. rewrite Etr. by apply list_elem_of_singleton. }
  split; [|exact Hauth].
  vm_compute in Hres. destruct g; try done.
  vm_compute in Hcall. injection Hcall as <-. rewrite Hurl. by vm_compute.
Defined.

(** ** Hints *)

Lemma lower_char_idempotent (a : ascii) :
  Py.lower_char (Py.lower_char a) = Py.lower_char a.
Proof. destruct a as [[] [] [] [] [] [] [] []]; reflexivity. Qed.

Lemma lower_idempotent (s : string) : Py.lower (Py.lower s) = Py.lower s.
Proof.
  induction s as [|a s IH]; [done|]. simpl.
  by rewrite lower_char_idempotent, IH.
Qed.

(** X19: hints are read without regard to case: two hints with the same
    lower-case form resolve alike, and a hint resolves as its lower-case
    form does. *)
Theorem format_api_version_case (h h' : string) :
  (Py.lower h = Py.lower h' →
     format_api_version (HStr h) = format_api_version (HStr h')) ∧
  format_api_version (HStr (Py.lower h)) = format_api_version (HStr h).
Proof.
  unfold format_api_version. split.
  - by intros ->.
  - by rewrite lower_idempotent.
Qed.

Lemma format_api_version_case_witness :
  format_api_version (HStr "WebApp") = format_api_version (HStr "WEBAPP").
Proof.
  destruct (format_api_version_case "WebApp" "WEBAPP") as [Hsame _].
  by apply Hsame.
Defined.

Lemma url_api_version_raise (server : string) (v : api_version) (e : exn) :
  url_api_version server v = Raise e → e = UnknownVersion v ∧ ∀ g, v ≠ tag g.
Proof.
  unfold url_api_version.
  destruct (version_eqb v (VInt 1)) eqn:E1; [done|].
  destruct (version_eqb v (VInt 2)) eqn:E2; [done|].
  destruct (version_eqb v (VStr "was")) eqn:E3; [done|].
  destruct (version_eqb v (VStr "am")) eqn:E4; [done|].
  intros [= <-]. split; [done|].
  intros g Hv. apply (version_eqb_tag v g) in Hv. destruct g; simpl in Hv; congruence.
Qed.

(** X20: a hint decides the version whatever the call looks like; a hint
    that Python takes for false ([None], the empty string, 0) is no hint;
    a hint that [format_api_version] rejects ends the request with its
    exception; and an integer hint other than 1 and 2 passes
    [format_api_version] and fails in [url_api_version]. *)
Theorem request_hint `{Lxml} (version : string) (self : QGConnector)
    (api_call : string) (data : option payload) (h : option hint)
    (m : option string) :
  (hint_truthy h = false →
     prepare version self api_call data h m
       = prepare version self api_call data None m) ∧
  (∀ x p, h = Some x → hint_truthy h = true →
     prepare version self api_call data h m = Return p →
     format_api_version x = Return (p_version p)) ∧
  (∀ x e, h = Some x → hint_truthy h = true →
     format_api_version x = Raise e →
     prepare version self api_call data h m = Raise e) ∧
  (∀ n, h = Some (HInt n) → n ≠ 0 → n ≠ 1 → n ≠ 2 →
     prepare version self api_call data h m = Raise (UnknownVersion (VInt n))).
Proof.
  split_and!.
  - intros Hh. unfold prepare. by rewrite Hh.
  - intros x p -> Hh Hp.
    destruct (prepare_return _ _ _ _ _ _ _ Hp) as (g & -> & Hres & _).
    unfold resolved_version in Hres. by rewrite Hh in Hres.
  - intros x e -> Hh Hx. unfold prepare. by rewrite Hh, Hx.
  - intros n -> H0 H1 H2. unfold prepare.
    assert (hint_truthy (Some (HInt n)) = true) as ->.
    { simpl. by apply negb_true_iff, Z.eqb_neq. }
    simpl. unfold url_api_version. simpl.
    by rewrite (proj2 (Z.eqb_neq n 1)), (proj2 (Z.eqb_neq n 2)).
Qed.

Lemma request_hint_witness :
  (∃ p, prepare "4.1.0" sample_conn "asset_search.php" None (Some (HStr "webapp")) None
          = Return p ∧ p_version p = VStr "was") ∧
  prepare "4.1.0" sample_conn "asset_search.php" None (Some (HInt 3)) None
    = Raise (UnknownVersion (VInt 3)).
Proof.
  split.
  - destruct (prepare "4.1.0" sample_conn "asset_search.php" None
                (Some (HStr "webapp")) None) as [p|e] eqn:Ep; [|by vm_compute in Ep].
    exists p. split; [done|].
    destruct (request_hint "4.1.0" sample_conn "asset_search.php" None
                (Some (HStr "webapp")) None) as (_ & Hres & _).
    specialize (Hres (HStr "webapp") p eq_refl eq_refl Ep).
    change (format_api_version (HStr "webapp")) with (Return (A := api_version) (VStr "was")) in Hres.
    congruence.
  - destruct (request_hint "4.1.0" sample_conn "asset_search.php" None
                (Some (HInt 3)) None) as (_ & _ & _ & Hint).
    by apply Hint.
Defined.

(** ** What a request can raise *)

Lemma format_call_failure_index (self : QGConnector) (v : api_version)
    (raw : string) (e : exn) :
  format_call self v raw = Raise e → e = IndexError.
Proof.
  unfold format_call.
  destruct (version_eqb v (VInt 2)); simpl; [|done].
  destruct (Py.last_char _) as [c|e'] eqn:El; simpl; [done|].
  intros [= <-].
  destruct (Py.rstrip "?" (Py.lstrip "/" raw)) as [|a s] eqn:Es.
  - simpl in El. by injection El as <-.
  - destruct (last_char_spec (String a s)) as (t & c & _ & Hc); [done|].
    congruence.
Qed.

Lemma prepare_unknown_version `{Lxml} (version : string) (self : QGConnector)
    (api_call : string) (data : option payload) (h : option hint)
    (m : option string) (v : api_version) :
  prepare version self api_call data h m = Raise (UnknownVersion v) →
  resolved_version api_call h = Return v ∧ ∀ g, v ≠ tag g.
Proof.
  unfold prepare. fold (resolved_version api_call h).
  destruct (resolved_version api_call h) as [v0|e'] eqn:Ev; simpl.
  - destruct (url_api_version (server self) v0) as [url|e''] eqn:Eu; simpl.
    + destruct (format_call self v0 (preformat_call api_call)) as [c|e3] eqn:Ec;
        simpl; [done|].
      intros [= ->]. by apply format_call_failure_index in Ec.
    + intros [= ->]. by apply url_api_version_raise in Eu as [[= ->] Hg].
  - intros [= ->]. unfold resolved_version in Ev.
    destruct (hint_truthy h); [|done]. destruct h as [x|]; [|done].
    by destruct (format_api_version_raises _ _ Ev).
Qed.

(** X21: what reaches the caller as an exception, and when: [KeyError]
    and [TypeError] only under the subprocess transport and before [curl]
    is started; the error of [raise_for_status] only on the direct
    transport, after the one call, with a status in 400..599;
    [IndexError] and the unknown-version exception only before anything
    is sent, the latter with a value that is none of the four versions. *)
Theorem request_exceptions `{Lxml} (version : string) (net : Transport)
    (self : QGConnector) (api_call : string) (data : option payload)
    (h : option hint) (m : option string) (e : exn) :
  let r := request version net self api_call data h m in
  outcome r = Raise e →
  match e with
  | KeyError | TypeError => curl_use_subprocess self = true ∧ trace r = []
  | HTTPError st _ =>
      curl_use_subprocess self = false ∧ 400 ≤ st < 600 ∧
      length (trace r) = 1%nat
  | IndexError => trace r = []
  | UnknownVersion v => trace r = [] ∧ ∀ g, v ≠ tag g
  | ValueError => True
  end.
Proof.
  intros r. subst r. unfold request.
  destruct (prepare version self api_call data h m) as [p|e0] eqn:Ep; simpl.
  2: { intros [= ->]. destruct e; try done.
       - by apply prepare_raises in Ep as [?|[?|[? ?]]].
       - by apply prepare_raises in Ep as [?|[?|[? ?]]].
       - split; [done|]. by apply prepare_unknown_version in Ep as [_ ?].
       - by apply prepare_raises in Ep as [?|[?|[? ?]]]. }
  destruct (curl_use_subprocess self) eqn:Ec.
  - unfold request_subprocess.
    destruct (curl_command _ _ _ _) as [args|e0] eqn:Ecmd; simpl; [done|].
    intros [= ->].
    apply curl_command_raises in Ecmd as [[-> _]|[[-> _]|[-> _]]]; done.
  - destruct (request_direct_run net self p) as (ev & resp & Htr & _ & _ & Hrec).
    rewrite Htr.
    destruct (record_rate_limit _ _ resp) as [m'|e0] eqn:Er.
    + destruct Hrec as [_ ->].
      destruct (raise_for_status resp) as [[]|e0] eqn:Es; simpl; [done|].
      apply raise_for_status_raise in Es as [Hf ->]. by intros [= <-].
    + destruct Hrec as [-> _]. apply record_rate_limit_raises in Er as [-> _].
      by intros [= <-].
Qed.

Lemma request_exceptions_witness :
  trace (request "4.1.0" (fixed_transport ok_response) http_proxy_conn
           "asset_search.php" None None None) = [].
Proof.
  assert (Ho : outcome (request "4.1.0" (fixed_transport ok_response)
                          http_proxy_conn "asset_search.php" None None None)
               = Raise KeyError) by (by vm_compute).
  by destruct (request_exceptions "4.1.0" (fixed_transport ok_response)
                 http_proxy_conn "asset_search.php" None None None KeyError Ho).
Defined.

(** ** The command line under failure and under a verb *)

Lemma curl_command_xml `{Lxml} (self : QGConnector) (url : string)
    (hdrs : gmap string string) (x : element) :
  element_bool x = true →
  curl_command self url hdrs (Some (PXml x)) = Raise TypeError.
Proof. intros Hx. unfold curl_command. simpl. by rewrite Hx. Qed.

Lemma curl_command_empty_list `{Lxml} (self : QGConnector) (url : string)
    (hdrs : gmap string string) (d : gmap string dict_value) (k : string) :
  d !! k = Some (DList []) →
  curl_command self url hdrs (Some (PDict d)) = Raise IndexError.
Proof.
  intros Hk. unfold curl_command. simpl.
  rewrite bool_decide_eq_false_2.
  2: { intros ->. by rewrite lookup_empty in Hk. }
  simpl. unfold first_values. rewrite bool_decide_eq_false_2; [done|].
  intros Hall. by apply (Hall k _ Hk).
Qed.

Lemma curl_command_no_https `{Lxml} (self : QGConnector) (url : string)
    (hdrs : gmap string string) (data : option payload)
    (px : gmap string string) :
  proxies self = Some px → px ≠ ∅ → px !! "https" = None →
  (∀ x, data = Some (PXml x) → element_bool x = false) →
  (∀ d k, data = Some (PDict d) → d !! k ≠ Some (DList [])) →
  curl_command self url hdrs data = Raise KeyError.
Proof.
  intros Hpx Hne Hh Hxml Hdict. unfold curl_command.
  set (c0 := foldl _ _ _). clearbody c0.
  assert (Hproxy : ∀ c,
    (if proxies_truthy (proxies self)
     then p ← proxies_https (default ∅ (proxies self));
          Return (curl_insert c ["--proxy"; p])
     else Return c) = Raise KeyError).
  { intros c. rewrite Hpx. simpl. rewrite bool_decide_eq_false_2 by done.
    simpl. unfold proxies_https. by rewrite Hh. }
  destruct data as [[s|d|x]|]; simpl.
  - destruct (Py.truthy_str s); simpl; apply Hproxy.
  - destruct (decide (d = ∅)) as [->|Hd].
    + rewrite bool_decide_eq_true_2 by done. simpl. apply Hproxy.
    + rewrite bool_decide_eq_false_2 by done. simpl.
      unfold first_values. rewrite bool_decide_eq_true_2; [simpl; apply Hproxy|].
      intros k v Hk ->. by apply (Hdict d k).
  - rewrite (Hxml x eq_refl). simpl. apply Hproxy.
  - apply Hproxy.
Qed.


(** X23: under the subprocess transport the verb has no effect: whatever
    [http_method] is given, the run is the same, with the same command
    line, the same outcome and the same connector. *)
Theorem request_subprocess_ignores_verb `{Lxml} (version : string)
    (net : Transport) (self : QGConnector) (api_call : string)
    (data : option payload) (h : option hint) (m m' : option string) :
  curl_use_subprocess self = true →
  request version net self api_call data h m
    = request version net self api_call data h m'.
Proof.
  intros Hc. unfold request, prepare. rewrite Hc.
  fold (resolved_version api_call h).
  destruct (resolved_version api_call h) as [v|e]; [|done]. simpl.
  destruct (url_api_version (server self) v) as [url|e]; [|done]. simpl.
  by destruct (format_call self v (preformat_call api_call)) as [c|e].
Qed.

Lemma request_subprocess_ignores_verb_witness :
  request "4.1.0" (fixed_transport ok_response) curl_conn "asset_search.php"
    (Some (PStr "ids=1")) None (Some "get")
  = request "4.1.0" (fixed_transport ok_response) curl_conn "asset_search.php"
      (Some (PStr "ids=1")) None (Some "post").
Proof.
  exact (request_subprocess_ignores_verb "4.1.0" (fixed_transport ok_response)
           curl_conn "asset_search.php" (Some (PStr "ids=1")) None
           (Some "get") (Some "post") eq_refl).
Defined.

(** X24: the strings that [format_api_version] returns are [am] and [was]
    and nothing else, and neither of them is itself accepted as a hint:
    passed back to [format_api_version], each is handed to [int()] and
    raises [ValueError]. *)
Theorem format_api_version_tags (h : string) (s : string) :
  format_api_version (HStr h) = Return (VStr s) →
  (s = "am" ∨ s = "was") ∧
  format_api_version (HStr s) = Raise ValueError.
Proof.
  unfold format_api_version at 1.
  destruct (strip_v (Py.lower h)) as [t|e]; simpl; [|done].
  repeat case_match; try done.
  - intros [= <-]. split; [by left|reflexivity].
  - intros [= <-]. split; [by right|reflexivity].
  - by destruct (Py.int t).
Qed.

Lemma format_api_version_tags_witness :
  format_api_version (HStr "Tagging") = Return (VStr "am") ∧
  format_api_version (HStr "am") = Raise ValueError.
Proof.
  assert (Ht : format_api_version (HStr "Tagging") = Return (VStr "am"))
    by reflexivity.
  split; [exact Ht|].
  by destruct (format_api_version_tags "Tagging" "am" Ht) as [_ ->].
Defined.
